(** * The load generator of [go/cmd/main.go]

    A shallow embedding of the benchmark harness: Go's [int] arithmetic, the
    [Writer] interface with its two adapters, the worker loop [doLoad], the
    deadline goroutine and the function [main], run as an interleaving of
    goroutine steps over one shared stop channel, one [sync.WaitGroup] and one
    backend.  Every call that the program makes on the outside world leaves an
    [event] in the trace of the run; the properties of the harness are stated
    on the reachable states and on their traces. *)

From Stdlib Require Import ZArith Lia List String DecimalString DecimalZ DecimalFacts Sorted.
From stdpp Require Import base list strings.
Import ListNotations.
Open Scope Z_scope.

(** ** Go's [int]

    On the 64-bit targets [int] is a 64-bit two's complement integer and its
    arithmetic wraps around silently. *)

Module GoInt.

Definition min_int : Z := - 2 ^ 63.
Definition max_int : Z := 2 ^ 63 - 1.

Definition in_range (z : Z) : Prop := min_int <= z <= max_int.

Definition wrap (z : Z) : Z := (z + 2 ^ 63) mod 2 ^ 64 - 2 ^ 63.

Definition add (a b : Z) : Z := wrap (a + b).
Definition mul (a b : Z) : Z := wrap (a * b).
Definition incr (a : Z) : Z := wrap (a + 1).

(** [a / b] for [b <> 0]: truncated division; [min_int / -1] wraps. *)
Definition quo (a b : Z) : Z := wrap (Z.quot a b).

End GoInt.

(** ** Errors and panics *)

(** An [error] value, by its message. *)
Definition error := string.

(** What a goroutine panics with: an [error] handed to [panic], or a run-time
    error of the language or of a library. *)
Inductive panic :=
| PError (e : error)
| PRuntime (msg : string).

(** A call returns or panics. *)
Inductive res (A : Type) :=
| Returns (a : A)
| Panics (p : panic).
Arguments Returns {A} a.
Arguments Panics {A} p.

(** ** The command line (lines 43-51) *)

Record Config := {
  writerType : string;
  threadsCount : Z;
  secondsCount : Z;
  batchSize : Z;
  authToken : string;
  lineProtocolsCount : Z;
  skipCount : bool;
  measurementName : string
}.

(** The RunConfig that the specification calls valid. *)
Definition valid (cfg : Config) : Prop :=
  0 < threadsCount cfg /\ 0 < secondsCount cfg /\ 0 < lineProtocolsCount cfg.

(** What [flag.Int] can deliver. *)
Definition representable (cfg : Config) : Prop :=
  GoInt.in_range (threadsCount cfg) /\ GoInt.in_range (secondsCount cfg) /\
  GoInt.in_range (lineProtocolsCount cfg).

(** Line 53. *)
Definition expected (cfg : Config) : Z :=
  GoInt.mul (GoInt.mul (threadsCount cfg) (secondsCount cfg)) (lineProtocolsCount cfg).

(** ** The stop channel

    [stopExecution] is an unbuffered [chan bool] on which nothing is ever
    sent: all that matters is whether it has been closed. *)

Inductive chan := Open | Closed.

(** [make(chan bool)], line 85. *)
Definition make_chan : chan := Open.

(** [close(c)]: closing a closed channel is a run-time panic. *)
Definition close (c : chan) : option chan :=
  match c with
  | Open => Some Closed
  | Closed => None
  end.

(** [select { case <-c: ... default: ... }]: the receive is ready exactly when
    the channel is closed, otherwise the default branch runs. *)
Definition ready (c : chan) : bool :=
  match c with
  | Open => false
  | Closed => true
  end.

(** ** [sync.WaitGroup]

    The counter of a wait group is the upper half of a 64-bit word and is
    read as an [int32]: [Add(delta)] adds [uint64(delta) << 32] to the word,
    so that the counter is kept modulo [2 ^ 32], and panics when the counter
    that it reads back is negative.  [Done] is [Add(-1)]; [Wait] returns when
    the counter is zero.  The lower half of the word counts the goroutines
    blocked in [Wait]; [main] is the only one to wait, once, after its only
    [Add], so that the waiters play no other part than to wake [main] up. *)

(** The conversion to [int32]. *)
Definition int32 (z : Z) : Z := (z + 2 ^ 31) mod 2 ^ 32 - 2 ^ 31.

Definition in_int32 (z : Z) : Prop := - 2 ^ 31 <= z < 2 ^ 31.

Definition wg_Add (counter delta : Z) : option Z :=
  let v := int32 (counter + delta) in
  if v <? 0 then None else Some v.

Definition wg_Done (counter : Z) : option Z := wg_Add counter (-1).

Definition wg_Wait (counter : Z) : bool := counter =? 0.

(** ** The [Writer] interface (lines 17-21)

    An adapter works on a backend of type [B], which stands for the
    connection together with the server behind it.  [Write] has no result in
    Go: what is left of a call is the new backend and the lines that the
    adapter printed about the submission. *)

Class Writer (B : Type) := {
  Write : Z -> string -> Z -> B -> B * list string;
  Count : string -> B -> B * res (Z * option error);
  Close : B -> B * option error
}.

(** ** The adapters

    The two client libraries, [fmt], [strconv] and the clock are outside the
    repository: each adapter is written over an interface that says what the
    calls it makes return, and over a state [C] that stands for the
    connection, the server behind it and the clock. *)

(** [fmt.Sprintf("%v", n)] for an integer [n]. *)
Definition Sprint_int (n : Z) : string :=
  DecimalString.NilZero.string_of_int (Z.to_int n).

Definition index_out_of_range : panic := PRuntime "runtime error: index out of range".
Definition nil_dereference : panic :=
  PRuntime "runtime error: invalid memory address or nil pointer dereference".
Definition interface_conversion : panic := PRuntime "interface conversion".

(** A point: measurement, tags, fields and the time in nanoseconds. *)
Record Point := {
  pt_name : string;
  pt_tags : list (string * string);
  pt_fields : list (string * string);
  pt_time : Z
}.

Module V1.

Record BatchPoints := { Database : string; Points : list Point }.

Definition AddPoint (pt : Point) (bp : BatchPoints) : BatchPoints :=
  {| Database := Database bp; Points := Points bp ++ [pt] |}.

Record Query := { Command : string; QDatabase : string; Precision : string }.

Definition NewQuery (command database precision : string) : Query :=
  {| Command := command; QDatabase := database; Precision := precision |}.

(** The response of a query, with cells of type [V] (Go's [interface{}]). *)
Record Row (V : Type) := { Values : list (list V) }.
Record Result (V : Type) := { Series : list (Row V); ResultErr : string }.
Record Response (V : Type) := { Results : list (Result V); Err : string }.
Arguments Values {V} _.
Arguments Series {V} _.
Arguments ResultErr {V} _.
Arguments Results {V} _.
Arguments Err {V} _.

(** The calls of [WriterV1] on the outside. [Query] returns the pair
    [(response, err)] of the library, [response] being [nil] or not. *)
Class Client (C V : Type) := {
  influx_Write : BatchPoints -> C -> C * option error;
  influx_Query : Query -> C -> C * (option (Response V) * option error);
  influx_Close : C -> C * option error;
  Response_Error : Response V -> option error;
  Sprint : V -> string;
  Atoi : string -> Z * option error;
  UnixNano : C -> Z
}.

Section Adapter.

Context {C V : Type} {L : Client C V}.

(** Lines 194-209. The errors of [NewBatchPoints] and [NewPoint] are dropped
    by the code ([bp, _ :=], [pt, _ :=]); the error of the write is tested
    and the branch is empty. *)
Definition WriterV1_Write (id : Z) (measurementName : string) (iteration : Z) (p : C)
    : C * list string :=
  let bp := {| Database := "iot_writes"; Points := [] |} in
  let tags := [("id", Sprint_int id)] in
  let fields := [("temperature", Sprint_int (UnixNano p))] in
  let pt := {| pt_name := measurementName; pt_tags := tags; pt_fields := fields;
               pt_time := iteration |} in
  let bp := AddPoint pt bp in
  match influx_Write bp p with
  | (p', Some err) => (p', [])
  | (p', None) => (p', [])
  end.

(** Lines 210-218. *)
Definition WriterV1_Count (measurementName : string) (p : C) : C * res (Z * option error) :=
  let q := NewQuery ("SELECT count(*) FROM " +:+ measurementName) "iot_writes" "" in
  match influx_Query q p with
  | (p', (response, None)) =>
      match response with
      | None => (p', Panics nil_dereference)
      | Some response =>
          match Response_Error response with
          | None =>
              match Results response !! 0%nat with
              | None => (p', Panics index_out_of_range)
              | Some result =>
                  match Series result !! 0%nat with
                  | None => (p', Panics index_out_of_range)
                  | Some row =>
                      match Values row !! 0%nat with
                      | None => (p', Panics index_out_of_range)
                      | Some cells =>
                          match cells !! 1%nat with
                          | None => (p', Panics index_out_of_range)
                          | Some count => (p', Returns (Atoi (Sprint count)))
                          end
                      end
                  end
              end
          | Some _ => (p', Returns (0, None))
          end
      end
  | (p', (_, Some _)) => (p', Returns (0, None))
  end.

(** Line 219. *)
Definition WriterV1_Close (p : C) : C * option error := influx_Close p.

#[export] Instance WriterV1 : Writer C :=
  {| Write := WriterV1_Write; Count := WriterV1_Count; Close := WriterV1_Close |}.

End Adapter.

End V1.

Module V2.

(** A value of type [interface{}] as far as the assertion [.(int64)] sees it. *)
Inductive dyn := DInt64 (n : Z) | DOther.

(** What the result of a query gives to [Count]: the answer of the first
    [Next()], [Err()], and [Record().ValueByKey("temperature")]. *)
Record QueryTableResult := { Next : bool; Err : option error; temperature : dyn }.

Class Client (C : Type) := {
  WritePoint : Point -> C -> C;
  Query : string -> C -> C * (QueryTableResult * option error);
  influx_Close : C -> C;
  UnixNano : C -> Z
}.

Definition quote : string := String (Ascii.ascii_of_nat 34) EmptyString.
Definition newline : string := String (Ascii.ascii_of_nat 10) EmptyString.
Definition tab : string := String (Ascii.ascii_of_nat 9) EmptyString.

(** Lines 166-171. *)
Definition count_query (measurementName : string) : string :=
  "from(bucket:" +:+ quote +:+ "my-bucket" +:+ quote +:+ ") " +:+ newline +:+
  tab +:+ tab +:+ "|> range(start: 0, stop: now()) " +:+ newline +:+
  tab +:+ tab +:+ "|> filter(fn: (r) => r._measurement == " +:+ quote +:+
    measurementName +:+ quote +:+ ") " +:+ newline +:+
  tab +:+ tab +:+ "|> pivot(rowKey:[" +:+ quote +:+ "_time" +:+ quote +:+ "], columnKey: [" +:+
    quote +:+ "_field" +:+ quote +:+ "], valueColumn: " +:+ quote +:+ "_value" +:+ quote +:+ ")" +:+ newline +:+
  tab +:+ tab +:+ "|> drop(columns: [" +:+ quote +:+ "id" +:+ quote +:+ ", " +:+
    quote +:+ "host" +:+ quote +:+ "])" +:+ newline +:+
  tab +:+ tab +:+ "|> count(column: " +:+ quote +:+ "temperature" +:+ quote +:+ ")".

Section Adapter.

Context {C : Type} {L : Client C}.

(** Lines 155-163. *)
Definition WriterV2_Write (id : Z) (measurementName : string) (iteration : Z) (p : C)
    : C * list string :=
  let point := {| pt_name := measurementName;
                  pt_tags := [("id", Sprint_int id)];
                  pt_fields := [("temperature", Sprint_int (UnixNano p))];
                  pt_time := iteration |} in
  (WritePoint point p, []).

(** Lines 165-188. *)
Definition WriterV2_Count (measurementName : string) (p : C) : C * res (Z * option error) :=
  match Query (count_query measurementName) p with
  | (p', (queryResult, Some err)) => (p', Returns (0, Some err))
  | (p', (queryResult, None)) =>
      if negb (Next queryResult) then
        match Err queryResult with
        | Some err => (p', Returns (0, Some err))
        | None => (p', Returns (0, Some "unknown error"))
        end
      else
        match temperature queryResult with
        | DInt64 total => (p', Returns (total, None))
        | DOther => (p', Panics interface_conversion)
        end
  end.

(** Lines 189-192. *)
Definition WriterV2_Close (p : C) : C * option error := (influx_Close p, None).

#[export] Instance WriterV2 : Writer C :=
  {| Write := WriterV2_Write; Count := WriterV2_Count; Close := WriterV2_Close |}.

End Adapter.

End V2.

(** Lines 69-83: the flag [-type] chooses the adapter, and the interface value
    [writer] dispatches on it. *)
Section Dispatch.

Context {C1 V C2 : Type} {L1 : V1.Client C1 V} {L2 : V2.Client C2}.

Definition new_writer (cfg : Config) (c1 : C1) (c2 : C2) : C1 + C2 :=
  if String.eqb (writerType cfg) "CLIENT_GO_V2" then inr c2 else inl c1.

#[export] Instance writer : Writer (C1 + C2) := {|
  Write id name j w :=
    match w with
    | inl p => let '(p', out) := V1.WriterV1_Write id name j p in (inl p', out)
    | inr p => let '(p', out) := V2.WriterV2_Write id name j p in (inr p', out)
    end;
  Count name w :=
    match w with
    | inl p => let '(p', r) := V1.WriterV1_Count name p in (inl p', r)
    | inr p => let '(p', r) := V2.WriterV2_Count name p in (inr p', r)
    end;
  Close w :=
    match w with
    | inl p => let '(p', r) := V1.WriterV1_Close p in (inl p', r)
    | inr p => let '(p', r) := V2.WriterV2_Close p in (inr p', r)
    end
|}.

End Dispatch.

(** ** Events

    A goroutine running [doLoad] is named by its slot [g] in the list of
    started workers; its [id] argument travels in the [Write] call. *)

(** The two [select] statements of [doLoad]. *)
Inductive site :=
| BatchHead (i : Z)    (* line 131, before the batch of second [i] *)
| TickHead (j : Z).    (* line 143, before the submission of tick [j] *)

Inductive event :=
| EExpected (n : Z)                                  (* line 66 *)
| ESpawn (g : nat) (id : Z)                          (* line 92 *)
| ETimer                                             (* line 95 *)
| EPoll (g : nat) (at_ : site) (stopped : bool)      (* lines 131, 143 *)
| EProgress (i total : Z)                            (* line 137 *)
| EWrite (g : nat) (id : Z) (name : string) (j : Z)  (* line 147 *)
| ELog (g : nat) (line : string)                     (* printed by the adapter in [Write] *)
| ESignal                                            (* line 98 *)
| ECount (name : string) (r : res (Z * option error)) (* line 109 *)
| EResults (expected total : Z)                      (* lines 113-116 *)
| ERate (perSecond : Z)                              (* lines 117-119 *)
| EClose (r : option error).                         (* line 122 *)

(** ** [doLoad] (lines 127-153) *)

(** Where a worker stands. *)
Inductive wpc :=
| AtBatch (i : Z)            (* line 130: about to test [i <= secondsCount] *)
| AtTick (i j end_ : Z)      (* line 142: about to test [j < end] *)
| AtWrite (i j end_ : Z)     (* line 147: the default branch was taken *)
| AtSleep (i : Z)            (* line 150 *)
| Returned.                  (* the deferred [wg.Done()] has run *)

(** What a step of a worker does to the shared objects. *)
Inductive action :=
| Local
| CallWrite (id : Z) (name : string) (j : Z)
| Return.

(** One step of [doLoad], given what the stop channel is at that moment. *)
Definition doLoad (g : nat) (stopExecution : chan) (id : Z)
    (measurementName : string) (secondsCount lineProtocolsCount : Z)
    (pc : wpc) : option (wpc * list event * action) :=
  match pc with
  | AtBatch i =>
      if i <=? secondsCount then
        if ready stopExecution then
          Some (Returned, [EPoll g (BatchHead i) true], Return)
        else
          let start := GoInt.mul i lineProtocolsCount in
          let end_ := GoInt.add start lineProtocolsCount in
          Some (AtTick i start end_,
                EPoll g (BatchHead i) false ::
                  (if id =? 1 then [EProgress i secondsCount] else []),
                Local)
      else Some (Returned, [], Return)
  | AtTick i j end_ =>
      if j <? end_ then
        if ready stopExecution then
          Some (Returned, [EPoll g (TickHead j) true], Return)
        else Some (AtWrite i j end_, [EPoll g (TickHead j) false], Local)
      else Some (AtSleep i, [], Local)
  | AtWrite i j end_ =>
      Some (AtTick i (GoInt.incr j) end_,
            [EWrite g id measurementName j],
            CallWrite id measurementName j)
  | AtSleep i => Some (AtBatch (GoInt.incr i), [], Local)
  | Returned => None
  end.

(** ** [main] (lines 42-125) and the run of the process *)

(** Where [main] stands. *)
Inductive mpc :=
| MBegin               (* lines 53-66 *)
| MAdd                 (* line 87 *)
| MSpawn (i : Z)       (* line 91: about to test [i <= *threadsCount] *)
| MTimer               (* line 95 *)
| MWait                (* line 101 *)
| MCount               (* lines 103-112 *)
| MReport (total : Z)  (* lines 113-119 *)
| MClose               (* line 122 *)
| MReturned.

(** The deadline goroutine of lines 95-99. *)
Inductive tpc := NotStarted | Sleeping | Fired.

Inductive status := Running | Exited | Panicked (p : panic).

Record goroutine := { g_id : Z; g_pc : wpc }.

Inductive tid := TMain | TTimer | TWorker (g : nat).

Section Harness.

Context {B : Type} {W : Writer B}.
Variable cfg : Config.

Record state := {
  st_status : status;
  st_main : mpc;
  st_workers : list goroutine;
  st_timer : tpc;
  stopExecution : chan;
  wg : Z;
  st_backend : B;
  st_trace : list event
}.

(** The writer has been built (lines 69-83) over the backend [b]. *)
Definition init (b : B) : state :=
  {| st_status := Running; st_main := MBegin; st_workers := []; st_timer := NotStarted;
     stopExecution := make_chan; wg := 0; st_backend := b; st_trace := [] |}.

Definition goto (pc : mpc) (s : state) : state :=
  {| st_status := st_status s; st_main := pc; st_workers := st_workers s;
     st_timer := st_timer s; stopExecution := stopExecution s; wg := wg s;
     st_backend := st_backend s; st_trace := st_trace s |}.

Definition emit (evs : list event) (s : state) : state :=
  {| st_status := st_status s; st_main := st_main s; st_workers := st_workers s;
     st_timer := st_timer s; stopExecution := stopExecution s; wg := wg s;
     st_backend := st_backend s; st_trace := st_trace s ++ evs |}.

Definition finish (st : status) (s : state) : state :=
  {| st_status := st; st_main := st_main s; st_workers := st_workers s;
     st_timer := st_timer s; stopExecution := stopExecution s; wg := wg s;
     st_backend := st_backend s; st_trace := st_trace s |}.

Definition set_workers (ws : list goroutine) (s : state) : state :=
  {| st_status := st_status s; st_main := st_main s; st_workers := ws;
     st_timer := st_timer s; stopExecution := stopExecution s; wg := wg s;
     st_backend := st_backend s; st_trace := st_trace s |}.

Definition set_timer (t : tpc) (s : state) : state :=
  {| st_status := st_status s; st_main := st_main s; st_workers := st_workers s;
     st_timer := t; stopExecution := stopExecution s; wg := wg s;
     st_backend := st_backend s; st_trace := st_trace s |}.

Definition set_stop (c : chan) (s : state) : state :=
  {| st_status := st_status s; st_main := st_main s; st_workers := st_workers s;
     st_timer := st_timer s; stopExecution := c; wg := wg s;
     st_backend := st_backend s; st_trace := st_trace s |}.

Definition set_wg (n : Z) (s : state) : state :=
  {| st_status := st_status s; st_main := st_main s; st_workers := st_workers s;
     st_timer := st_timer s; stopExecution := stopExecution s; wg := n;
     st_backend := st_backend s; st_trace := st_trace s |}.

Definition set_backend (b : B) (s : state) : state :=
  {| st_status := st_status s; st_main := st_main s; st_workers := st_workers s;
     st_timer := st_timer s; stopExecution := stopExecution s; wg := wg s;
     st_backend := b; st_trace := st_trace s |}.

Definition negative_counter : panic := PRuntime "sync: negative WaitGroup counter".
Definition close_of_closed : panic := PRuntime "close of closed channel".
Definition divide_by_zero : panic := PRuntime "runtime error: integer divide by zero".

(** One step of [main]. *)
Definition main (s : state) : option state :=
  match st_main s with
  | MBegin => Some (emit [EExpected (expected cfg)] (goto MAdd s))
  | MAdd =>
      match wg_Add (wg s) (threadsCount cfg) with
      | None => Some (finish (Panicked negative_counter) s)
      | Some n => Some (goto (MSpawn 1) (set_wg n s))
      end
  | MSpawn i =>
      if i <=? threadsCount cfg then
        Some (emit [ESpawn (length (st_workers s)) i]
                (goto (MSpawn (GoInt.incr i))
                   (set_workers (st_workers s ++ [{| g_id := i; g_pc := AtBatch 1 |}]) s)))
      else Some (goto MTimer s)
  | MTimer => Some (emit [ETimer] (goto MWait (set_timer Sleeping s)))
  | MWait =>
      if wg_Wait (wg s) then Some (goto (if skipCount cfg then MClose else MCount) s)
      else None
  | MCount =>
      let '(b, r) := Count (measurementName cfg) (st_backend s) in
      let s' := emit [ECount (measurementName cfg) r] (set_backend b s) in
      match r with
      | Panics p => Some (finish (Panicked p) s')
      | Returns (total, Some err) => Some (finish (Panicked (PError err)) s')
      | Returns (total, None) => Some (goto (MReport total) s')
      end
  | MReport total =>
      let s' := emit [EResults (expected cfg) total] s in
      if secondsCount cfg =? 0 then Some (finish (Panicked divide_by_zero) s')
      else Some (emit [ERate (GoInt.quo total (secondsCount cfg))] (goto MClose s'))
  | MClose =>
      let '(b, r) := Close (st_backend s) in
      let s' := emit [EClose r] (set_backend b s) in
      match r with
      | Some err => Some (finish (Panicked (PError err)) s')
      | None => Some (finish Exited (goto MReturned s'))
      end
  | MReturned => None
  end.

(** The step of the deadline goroutine: the sleep is over, the channel is
    closed. *)
Definition deadline (s : state) : option state :=
  match st_timer s with
  | Sleeping =>
      match close (stopExecution s) with
      | None => Some (finish (Panicked close_of_closed) s)
      | Some c => Some (emit [ESignal] (set_stop c (set_timer Fired s)))
      end
  | _ => None
  end.

(** One step of the worker in slot [g]. *)
Definition worker (g : nat) (s : state) : option state :=
  match st_workers s !! g with
  | None => None
  | Some w =>
      match doLoad g (stopExecution s) (g_id w) (measurementName cfg)
              (secondsCount cfg) (lineProtocolsCount cfg) (g_pc w) with
      | None => None
      | Some (pc, evs, a) =>
          let s' := emit evs (set_workers (<[g := {| g_id := g_id w; g_pc := pc |}]> (st_workers s)) s) in
          match a with
          | Local => Some s'
          | CallWrite id name j =>
              let '(b, out) := Write id name j (st_backend s) in
              Some (emit (map (ELog g) out) (set_backend b s'))
          | Return =>
              match wg_Done (wg s) with
              | None => Some (finish (Panicked negative_counter) s')
              | Some n => Some (set_wg n s')
              end
          end
      end
  end.

(** The process runs while nothing has panicked and [main] has not
    returned; a scheduler picks the goroutine that moves. *)
Definition step (t : tid) (s : state) : option state :=
  match st_status s with
  | Running =>
      match t with
      | TMain => main s
      | TTimer => deadline s
      | TWorker g => worker g s
      end
  | _ => None
  end.

Fixpoint exec (sched : list tid) (s : state) : option state :=
  match sched with
  | [] => Some s
  | t :: sched' =>
      match step t s with
      | Some s' => exec sched' s'
      | None => None
      end
  end.

Inductive reachable (b : B) : state -> Prop :=
| reach_init : reachable b (init b)
| reach_step t s s' : reachable b s -> step t s = Some s' -> reachable b s'.

End Harness.


(** ** Observations on a trace *)

(** The polls and the submissions of the worker in slot [g], in order. *)
Definition of_worker (g : nat) (e : event) : bool :=
  match e with
  | EPoll g' _ _ => Nat.eqb g' g
  | EWrite g' _ _ _ => Nat.eqb g' g
  | _ => false
  end.

Definition wtrace (g : nat) (tr : list event) : list event :=
  List.filter (of_worker g) tr.

(** The sequence numbers submitted by the worker in slot [g], in order. *)
Definition seqno (e : event) : option Z :=
  match e with
  | EWrite _ _ _ j => Some j
  | _ => None
  end.

Fixpoint seqnos (l : list event) : list Z :=
  match l with
  | [] => []
  | e :: l' =>
      match seqno e with
      | Some j => j :: seqnos l'
      | None => seqnos l'
      end
  end.

Definition writes (g : nat) (tr : list event) : list Z := seqnos (wtrace g tr).

(** The integers [a, a+1, ..., b-1]. *)
Definition zrange (a b : Z) : list Z :=
  map (fun k => a + Z.of_nat k) (seq 0 (Z.to_nat (b - a))).

Definition is_signal (e : event) : bool :=
  match e with ESignal => true | _ => false end.

Definition is_spawn (e : event) : bool :=
  match e with ESpawn _ _ => true | _ => false end.

Definition is_write (e : event) : bool :=
  match e with EWrite _ _ _ _ => true | _ => false end.

Definition is_log (e : event) : bool :=
  match e with ELog _ _ => true | _ => false end.

Definition is_expected (e : event) : bool :=
  match e with EExpected _ => true | _ => false end.

(** [Count] was called, the result was reported, [Close] was called. *)
Definition is_count (e : event) : bool :=
  match e with ECount _ _ => true | _ => false end.

Definition is_report (e : event) : bool :=
  match e with EResults _ _ | ERate _ => true | _ => false end.

Definition is_close (e : event) : bool :=
  match e with EClose _ => true | _ => false end.

Definition none_of (p : event -> bool) (tr : list event) : Prop :=
  forall e, In e tr -> p e = false.

(** The trace without the lines printed by the adapter. *)
Definition unlogged (tr : list event) : list event :=
  List.filter (fun e => negb (is_log e)) tr.

(** The number of times the stop channel was closed. *)
Definition signals (tr : list event) : nat := length (List.filter is_signal tr).

(** The rank of the statements of [main]. *)
Definition phase (pc : mpc) : nat :=
  match pc with
  | MBegin => 0 | MAdd => 1 | MSpawn _ => 2 | MTimer => 3 | MWait => 4
  | MCount => 5 | MReport _ => 6 | MClose => 7 | MReturned => 8
  end.

(** What [main] panics with after [Count] (lines 109-112), if it does. *)
Definition count_failure (r : res (Z * option error)) : option panic :=
  match r with
  | Returns (_, None) => None
  | Returns (_, Some err) => Some (PError err)
  | Panics p => Some p
  end.

(** All of a run but the backend and the lines printed by the adapter. *)
Definition control {B : Type} (s : @state B)
    : status * mpc * list goroutine * tpc * chan * Z * list event :=
  (st_status s, st_main s, st_workers s, st_timer s, stopExecution s, wg s,
   unlogged (st_trace s)).

(** ** What holds along [doLoad]

    Each predicate relates the point where one worker stands to what that
    worker has left in the trace. *)

(** Every submission comes right after a look at the channel that found it
    open, and nothing comes after a look that found it closed. *)
Definition polled (g : nat) (pc : wpc) (l : list event) : Prop :=
  (forall pre g' id name j post,
      l = pre ++ EWrite g' id name j :: post ->
      exists pre', pre = pre' ++ [EPoll g (TickHead j) false]) /\
  (forall pre g' at_ post,
      l = pre ++ EPoll g' at_ true :: post -> post = [] /\ pc = Returned) /\
  (forall i j e, pc = AtWrite i j e -> exists pre, l = pre ++ [EPoll g (TickHead j) false]).

(** Without overflow, the worker has submitted [lpc, lpc+1, ...] up to where
    it stands in second [i]. *)
Definition ordered (sec lpc : Z) (pc : wpc) (ws : list Z) : Prop :=
  match pc with
  | AtBatch i => 1 <= i /\ (i <= sec + 1 \/ i = 1) /\ ws = zrange lpc (i * lpc)
  | AtTick i j e =>
      1 <= i <= sec /\ e = i * lpc + lpc /\ i * lpc <= j <= e /\ ws = zrange lpc j
  | AtWrite i j e =>
      1 <= i <= sec /\ e = i * lpc + lpc /\ i * lpc <= j < e /\ ws = zrange lpc j
  | AtSleep i => 1 <= i <= sec /\ ws = zrange lpc (i * lpc + lpc)
  | Returned => exists n, 0 <= n <= Z.max 0 (sec * lpc) /\ ws = zrange lpc (lpc + n)
  end.

(** Configurations under which every batch is empty: no second, no tick in a
    second, or a negative number of ticks whose multiples stay in range. *)
Definition never_ticks (cfg : Config) : Prop :=
  secondsCount cfg <= 0 \/ lineProtocolsCount cfg = 0 \/
  (lineProtocolsCount cfg < 0 /\ secondsCount cfg < GoInt.max_int /\
   GoInt.min_int <= (secondsCount cfg + 1) * lineProtocolsCount cfg).

Definition silent (cfg : Config) (pc : wpc) (ws : list Z) : Prop :=
  ws = [] /\
  match pc with
  | AtBatch i =>
      lineProtocolsCount cfg = 0 \/ (1 <= i /\ (i <= secondsCount cfg + 1 \/ i = 1))
  | AtTick i j e => e <= j /\ (lineProtocolsCount cfg = 0 \/ 1 <= i <= secondsCount cfg)
  | AtWrite _ _ _ => False
  | AtSleep i => lineProtocolsCount cfg = 0 \/ 1 <= i <= secondsCount cfg
  | Returned => True
  end.

(** The worker in slot [g] stands at [pc] in a running process whose stop
    channel is open, having submitted [ws]. *)
Definition standing {B : Type} {W : Writer B} (cfg : Config) (b : B)
    (g : nat) (id : Z) (pc : wpc) (ws : list Z) (s : state) : Prop :=
  reachable cfg b s /\ st_status s = Running /\ stopExecution s = Open /\
  st_workers s !! g = Some {| g_id := id; g_pc := pc |} /\
  writes g (st_trace s) = ws.

(** The answer to the count query has no series, or no result at all. *)
Definition empty_result_set {V : Type} (r : V1.Response V) : Prop :=
  match V1.Results r with
  | [] => True
  | x :: _ => V1.Series x = []
  end.

(** ** Simulated servers

    Small executable backends on which the adapters and whole runs can be
    evaluated. *)

Module Sim.

(** A server of the 1.x line: it stores the points it accepts, or refuses
    every write; a query fails in transport, answers with an error, or
    answers with the count of the points of the measurement, the result
    having no series when no point matches. *)
Record server1 := {
  stored1 : list Point;
  clock1 : Z;
  write_error : option error;
  query_error : option error;
  response_error : string
}.

Definition counted (command : string) (pt : Point) : bool :=
  String.eqb command ("SELECT count(*) FROM " +:+ pt_name pt).

Definition Write1 (bp : V1.BatchPoints) (s : server1) : server1 * option error :=
  match write_error s with
  | Some e => (s, Some e)
  | None =>
      ({| stored1 := stored1 s ++ V1.Points bp; clock1 := clock1 s + 1;
          write_error := write_error s; query_error := query_error s;
          response_error := response_error s |}, None)
  end.

Definition Query1 (q : V1.Query) (s : server1)
    : server1 * (option (V1.Response string) * option error) :=
  match query_error s with
  | Some e => (s, (None, Some e))
  | None =>
      if String.eqb (response_error s) "" then
        let n := length (List.filter (counted (V1.Command q)) (stored1 s)) in
        let series :=
          match n with
          | O => []
          | _ => [ {| V1.Values := [ ["1970-01-01T00:00:00Z"; Sprint_int (Z.of_nat n)] ] |} ]
          end in
        (s, (Some {| V1.Results := [ {| V1.Series := series; V1.ResultErr := "" |} ];
                     V1.Err := "" |}, None))
      else
        (s, (Some {| V1.Results := []; V1.Err := response_error s |}, None))
  end.

(** [Response.Error] of the client library: the error of the response, or
    the first error of a result. *)
Definition Error1 (r : V1.Response string) : option error :=
  if String.eqb (V1.Err r) "" then
    match List.filter (fun x => negb (String.eqb (V1.ResultErr x) "")) (V1.Results r) with
    | [] => None
    | x :: _ => Some (V1.ResultErr x)
    end
  else Some (V1.Err r).

Definition digit (c : Ascii.ascii) : option Z :=
  let n := Z.of_nat (Ascii.nat_of_ascii c) in
  if (48 <=? n) && (n <=? 57) then Some (n - 48) else None.

Fixpoint digits (s : string) (acc : Z) : option Z :=
  match s with
  | EmptyString => Some acc
  | String c s' =>
      match digit c with
      | Some d => digits s' (10 * acc + d)
      | None => None
      end
  end.

(** [strconv.Atoi] on a decimal numeral with an optional sign. *)
Definition Atoi (s : string) : Z * option error :=
  let '(negative, body) :=
    match s with
    | String c rest =>
        if Ascii.eqb c (Ascii.ascii_of_nat 45) then (true, rest)
        else if Ascii.eqb c (Ascii.ascii_of_nat 43) then (false, rest)
        else (false, s)
    | EmptyString => (false, s)
    end in
  match body with
  | EmptyString => (0, Some "strconv.Atoi: invalid syntax")
  | _ =>
      match digits body 0 with
      | None => (0, Some "strconv.Atoi: invalid syntax")
      | Some n =>
          let v := if negative then - n else n in
          if v <? GoInt.min_int then (GoInt.min_int, Some "strconv.Atoi: value out of range")
          else if GoInt.max_int <? v then (GoInt.max_int, Some "strconv.Atoi: value out of range")
          else (v, None)
      end
  end.

#[global] Instance client1 : V1.Client server1 string := {|
  V1.influx_Write := Write1;
  V1.influx_Query := Query1;
  V1.influx_Close s := (s, None);
  V1.Response_Error := Error1;
  V1.Sprint v := v;
  V1.Atoi := Atoi;
  V1.UnixNano := clock1
|}.

Definition server1_up : server1 :=
  {| stored1 := []; clock1 := 0; write_error := None; query_error := None;
     response_error := "" |}.

(** Every write is refused. *)
Definition server1_refusing : server1 :=
  {| stored1 := []; clock1 := 0; write_error := Some "connection refused";
     query_error := None; response_error := "" |}.

(** The query cannot be sent. *)
Definition server1_unreachable : server1 :=
  {| stored1 := []; clock1 := 0; write_error := Some "connection refused";
     query_error := Some "connection refused"; response_error := "" |}.

(** The query is answered with an error. *)
Definition server1_no_database : server1 :=
  {| stored1 := []; clock1 := 0; write_error := None; query_error := None;
     response_error := "database not found: iot_writes" |}.

(** A server of the 2.x line. *)
Record server2 := {
  stored2 : list Point;
  clock2 : Z;
  query_error2 : option error
}.

Definition Query2 (q : string) (s : server2)
    : server2 * (V2.QueryTableResult * option error) :=
  match query_error2 s with
  | Some e => (s, ({| V2.Next := false; V2.Err := None; V2.temperature := V2.DOther |}, Some e))
  | None =>
      let n := length (List.filter (fun pt => String.eqb q (V2.count_query (pt_name pt))) (stored2 s)) in
      match n with
      | O => (s, ({| V2.Next := false; V2.Err := None; V2.temperature := V2.DOther |}, None))
      | _ => (s, ({| V2.Next := true; V2.Err := None;
                     V2.temperature := V2.DInt64 (Z.of_nat n) |}, None))
      end
  end.

#[global] Instance client2 : V2.Client server2 := {|
  V2.WritePoint pt s :=
    {| stored2 := stored2 s ++ [pt]; clock2 := clock2 s + 1; query_error2 := query_error2 s |};
  V2.Query := Query2;
  V2.influx_Close s := s;
  V2.UnixNano := clock2
|}.

Definition server2_up : server2 :=
  {| stored2 := []; clock2 := 0; query_error2 := None |}.

Definition server2_unauthorized : server2 :=
  {| stored2 := []; clock2 := 0; query_error2 := Some "unauthorized access" |}.

(** A backend that accepts and forgets everything. *)
#[global] Instance null : Writer unit := {|
  Write _ _ _ b := (b, []);
  Count _ b := (b, Returns (0, None));
  Close b := (b, None)
|}.

Definition config (type : string) (threads seconds lines : Z) (skip : bool) : Config :=
  {| writerType := type; threadsCount := threads; secondsCount := seconds;
     batchSize := 1000; authToken := "my-token"; lineProtocolsCount := lines;
     skipCount := skip; measurementName := "sensor_0" |}.

(** Schedules: [n] steps of one goroutine in a row. *)
Definition runs (t : tid) (n : nat) : list tid := repeat t n.

(** [main] up to [wg.Wait()] with [n] workers: lines 53-99. *)
Definition start (n : nat) : list tid := runs TMain (n + 4).

(** The default flags, with a large [-lineProtocolsCount]. *)
Definition overflowing : Config := config "CLIENT_GO_V2" 2000 30 153722867280913 false.

(** One worker, four seconds, as many ticks per second as an [int] holds. *)
Definition wrapping : Config := config "CLIENT_GO_V2" 1 4 9223372036854775807 true.

(** No tick per second. *)
Definition tickless : Config := config "CLIENT_GO_V2" 1 1 0 true.

(** A negative number of workers. *)
Definition negative : Config := config "CLIENT_GO_V2" (-1) 1 1 true.

(** Scenario A of the specification. *)
Definition scenarioA : Config := config "CLIENT_GO_V1" 1 2 3 true.

(** Two workers, one second, two ticks per second, on either adapter. *)
Definition small1 : Config := config "CLIENT_GO_V1" 2 1 2 false.
Definition small2 : Config := config "CLIENT_GO_V2" 2 1 2 false.

End Sim.

(** ** Counting over the workers and over the trace *)

(** The sum of [f] over the started workers. *)
Definition total (f : goroutine -> Z) (ws : list goroutine) : Z :=
  fold_right (fun w acc => f w + acc) 0 ws.

Definition has_returned (w : goroutine) : bool :=
  match g_pc w with
  | Returned => true
  | _ => false
  end.

(** The number of workers whose deferred [wg.Done()] has run. *)
Definition returned (ws : list goroutine) : Z :=
  total (fun w => Z.b2z (has_returned w)) ws.

(** What comes in a trace after the first event that satisfies [p]. *)
Fixpoint after (p : event -> bool) (tr : list event) : list event :=
  match tr with
  | [] => []
  | e :: tr' => if p e then tr' else after p tr'
  end.

(** The events of the worker in slot [g] together with the closing of the
    stop channel. *)
Definition view (g : nat) (tr : list event) : list event :=
  List.filter (fun e => of_worker g e || is_signal e) tr.

(** [Count] or [Close] is called. *)
Definition is_backend_call (e : event) : bool := is_count e || is_close e.

(** A worker does something: a look at the channel, a progress line, a
    submission, a line printed by the adapter. *)
Definition is_worker_event (e : event) : bool :=
  match e with
  | EPoll _ _ _ | EProgress _ _ | EWrite _ _ _ _ | ELog _ _ => true
  | _ => false
  end.

(** A look at the stop channel that found it open. *)
Definition is_open_poll (e : event) : bool :=
  match e with
  | EPoll _ _ false => true
  | _ => false
  end.

(** A look at the stop channel that found it closed. *)
Definition is_closed_poll (e : event) : bool :=
  match e with
  | EPoll _ _ true => true
  | _ => false
  end.

(** The number of submissions in a trace. *)
Definition written (tr : list event) : Z := Z.of_nat (length (List.filter is_write tr)).

(** ** The worker after the signal *)

Definition at_write (pc : wpc) : nat :=
  match pc with
  | AtWrite _ _ _ => 1
  | _ => 0
  end.

(** With the channel closed, the worker has not seen it open since, and it
    has submitted once at most since, the submission it may stand at
    included. *)
Definition draining (c : chan) (pc : wpc) (l : list event) : Prop :=
  match c with
  | Open => existsb is_signal l = false
  | Closed =>
      existsb is_signal l = true /\
      none_of is_open_poll (after is_signal l) /\
      (length (seqnos (after is_signal l)) + at_write pc <= 1)%nat
  end.

(** The number of steps that a worker can still take once the channel is
    closed. *)
Definition drain_rank (pc : wpc) : nat :=
  match pc with
  | AtWrite _ _ _ => 4
  | AtTick _ _ _ => 3
  | AtSleep _ => 2
  | AtBatch _ => 1
  | Returned => 0
  end.

Definition is_step_of (g : nat) (t : tid) : bool :=
  match t with
  | TWorker g' => Nat.eqb g' g
  | _ => false
  end.

(** ** The point of a tick

    What both adapters build: lines 156-160 and 200-204. *)
Definition tick_point (measurementName : string) (id iteration now : Z) : Point :=
  {| pt_name := measurementName;
     pt_tags := [("id", Sprint_int id)];
     pt_fields := [("temperature", Sprint_int now)];
     pt_time := iteration |}.

(** What [main] ends with after [Close] (lines 122-124). *)
Definition close_status (r : option error) : status :=
  match r with
  | None => Exited
  | Some err => Panicked (PError err)
  end.

(** The error of [WriterV2.Count] when the result has no row (lines 178-183). *)
Definition no_row_error (r : V2.QueryTableResult) : error :=
  match V2.Err r with
  | Some err => err
  | None => "unknown error"
  end.


(** ** What is left to submit

    The submissions that a worker standing at [pc] makes if it is never
    stopped. *)
Definition budget (sec lpc : Z) (pc : wpc) : Z :=
  match pc with
  | AtBatch i => (sec + 1 - i) * lpc
  | AtTick i j e => (e - j) + (sec - i) * lpc
  | AtWrite i j e => (e - j) + (sec - i) * lpc
  | AtSleep i => (sec - i) * lpc
  | Returned => 0
  end.

(** ** The steps that are left

    A bound on the number of steps that a goroutine can still take, for a
    worker that is never stopped: a batch has fewer than [2 ^ 64] ticks, and
    a tick takes two steps. *)









(** * Properties *)

(** ** Go's [int] *)


Lemma wrap_small z : GoInt.in_range z -> GoInt.wrap z = z.
Proof.
  unfold GoInt.in_range, GoInt.wrap, GoInt.min_int, GoInt.max_int. intros H.
  rewrite Z.mod_small; lia.
Qed.

Lemma wrap_mul_l a b : GoInt.wrap (GoInt.wrap a * b) = GoInt.wrap (a * b).
Proof.
  unfold GoInt.wrap.
  replace ((a + 2 ^ 63) mod 2 ^ 64 - 2 ^ 63)
    with (a - 2 ^ 64 * ((a + 2 ^ 63) / 2 ^ 64))
    by (pose proof (Z.div_mod (a + 2 ^ 63) (2 ^ 64) ltac:(lia)); lia).
  f_equal.
  replace ((a - 2 ^ 64 * ((a + 2 ^ 63) / 2 ^ 64)) * b + 2 ^ 63)
    with (a * b + 2 ^ 63 + (- ((a + 2 ^ 63) / 2 ^ 64) * b) * 2 ^ 64) by ring.
  apply Z.mod_add. lia.
Qed.

Lemma expected_exact cfg :
  GoInt.in_range (threadsCount cfg * secondsCount cfg * lineProtocolsCount cfg) ->
  expected cfg = threadsCount cfg * secondsCount cfg * lineProtocolsCount cfg.
Proof.
  intros H. unfold expected, GoInt.mul. rewrite wrap_mul_l. now apply wrap_small.
Qed.

(** ** Case analysis on a step *)

Ltac break_match H :=
  repeat match type of H with
  | context [match ?x with _ => _ end] =>
      lazymatch x with
      | context [match _ with _ => _ end] => fail
      | _ => destruct x eqn:?; try discriminate H
      end
  end.

Ltac step_cases H :=
  unfold step in H;
  match type of H with
  | context [st_status ?s] => destruct (st_status s) eqn:?; try discriminate H
  end;
  try match type of H with
  | context [match ?t with TMain => _ | _ => _ end] => destruct t
  end;
  try unfold main in H; try unfold deadline in H; try unfold worker, doLoad in H;
  break_match H;
  inversion H; subst; clear H; simpl in *.

(** ** Traces and lists *)

Lemma none_of_nil p : none_of p [].
Proof. intros e []. Qed.

Lemma none_of_cons p e tr : p e = false -> none_of p tr -> none_of p (e :: tr).
Proof. intros He H x [<-|Hx]; auto. Qed.

Lemma none_of_app p tr1 tr2 : none_of p tr1 -> none_of p tr2 -> none_of p (tr1 ++ tr2).
Proof. intros H1 H2 x Hx. apply in_app_iff in Hx as [Hx|Hx]; auto. Qed.

Lemma none_of_app_inv p tr1 tr2 : none_of p (tr1 ++ tr2) -> none_of p tr1 /\ none_of p tr2.
Proof. intros H. split; intros x Hx; apply H, in_app_iff; auto. Qed.

Lemma none_of_logs p g out : (forall l, p (ELog g l) = false) -> none_of p (map (ELog g) out).
Proof. intros H x Hx. apply in_map_iff in Hx as (l & <- & _). apply H. Qed.

Ltac none_of_tac :=
  repeat first
    [ assumption
    | apply none_of_nil
    | apply none_of_app
    | apply none_of_cons; [reflexivity|]
    | apply none_of_logs; intros; reflexivity ].

Lemma snoc_split {A} (l pre post : list A) x y :
  l ++ [y] = pre ++ x :: post ->
  (post = [] /\ pre = l /\ x = y) \/ (exists post', post = post' ++ [y] /\ l = pre ++ x :: post').
Proof.
  intros E. induction post as [|p post _] using rev_ind.
  - left. apply app_inj_tail in E as [-> ->]. auto.
  - right. exists post. rewrite app_comm_cons, app_assoc in E.
    apply app_inj_tail in E as [-> ->]. auto.
Qed.

Ltac doLoad_cases H :=
  unfold doLoad in H; break_match H; inversion H; subst; clear H; simpl.

Section Runs.

Context {B : Type} {W : Writer B}.
Variable cfg : Config.
Variable b : B.

Lemma exec_app s1 s2 (s : state) :
  exec cfg (s1 ++ s2) s = match exec cfg s1 s with Some s' => exec cfg s2 s' | None => None end.
Proof.
  revert s. induction s1 as [|t s1 IH]; intros s; simpl; [reflexivity|].
  destruct (step cfg t s); auto.
Qed.

Lemma reachable_exec sched (s s' : state) :
  reachable cfg b s -> exec cfg sched s = Some s' -> reachable cfg b s'.
Proof.
  revert s. induction sched as [|t sched IH]; intros s Hr He; simpl in He.
  - congruence.
  - destruct (step cfg t s) eqn:Hs; [|discriminate].
    eapply IH; [|eassumption]. eapply reach_step; eassumption.
Qed.

Lemma run_reachable sched (s : state) :
  exec cfg sched (init b) = Some s -> reachable cfg b s.
Proof. apply reachable_exec. constructor. Qed.

Lemma reachable_run (s : state) :
  reachable cfg b s -> exists sched, exec cfg sched (init b) = Some s.
Proof.
  induction 1 as [|t s s' _ [sched IH] Hs].
  - exists []. reflexivity.
  - exists (sched ++ [t]). rewrite exec_app, IH. simpl. now rewrite Hs.
Qed.

(** Only a running process moves, and a step only adds to the trace. *)
Lemma step_running t (s s' : state) : step cfg t s = Some s' -> st_status s = Running.
Proof. unfold step. destruct (st_status s); congruence. Qed.

Lemma step_trace t (s s' : state) :
  step cfg t s = Some s' -> exists evs, st_trace s' = st_trace s ++ evs.
Proof.
  intros H. step_cases H; try (eexists; reflexivity);
    try (exists []; symmetry; apply app_nil_r);
    try (rewrite <- app_assoc; eexists; reflexivity).
Qed.

(** *** The expected size is the first thing a run computes *)

Lemma expected_first (s : state) :
  reachable cfg b s ->
  (st_trace s = [] /\ st_main s = MBegin /\ st_workers s = [] /\ st_timer s = NotStarted) \/
  (exists rest, st_trace s = EExpected (expected cfg) :: rest /\ st_main s <> MBegin /\
                none_of is_expected rest).
Proof.
  induction 1 as [|t s s' Hr IH Hs].
  - left. auto.
  - step_cases Hs.
    all: destruct IH as [(IH1 & IH2 & IH3 & IH4)|(rest & IH1 & IH2 & IH3)]; try congruence.
    all: try (rewrite IH3 in *; discriminate).
    all: right; rewrite IH1; rewrite <- ?app_assoc, <- ?app_comm_cons;
         eexists; (split; [reflexivity|split;[congruence|none_of_tac]]).
Qed.

(** *** The order of the calls of [main] *)

Lemma before_count (s : state) :
  reachable cfg b s ->
  ((phase (st_main s) <= 4)%nat -> none_of is_count (st_trace s)) /\
  (st_main s = MCount -> st_status s = Running -> none_of is_count (st_trace s)) /\
  ((phase (st_main s) <= 5)%nat -> none_of is_report (st_trace s) /\ none_of is_close (st_trace s)).
Proof.
  induction 1 as [|t s s' Hr IH Hs].
  - simpl. repeat split; intros; apply none_of_nil.
  - step_cases Hs.
    all: destruct IH as (IH1 & IH2 & IH3).
    all: repeat match goal with H : st_main _ = _ |- _ => rewrite H in *; simpl in * end.
    all: repeat split; intros; try lia; try discriminate; try congruence.
    all: none_of_tac;
         solve [apply IH1; simpl; lia | apply IH2; auto | apply IH3; simpl; lia].
Qed.

Lemma skipCount_phases (s : state) :
  skipCount cfg = true -> reachable cfg b s ->
  st_main s <> MCount /\ (forall total, st_main s <> MReport total) /\
  none_of is_count (st_trace s) /\ none_of is_report (st_trace s).
Proof.
  intros Hskip. induction 1 as [|t s s' Hr IH Hs].
  - simpl. repeat split; try discriminate; apply none_of_nil.
  - step_cases Hs.
    all: destruct IH as (IH1 & IH2 & IH3 & IH4).
    all: try congruence.
    all: try (exfalso; eapply IH2; eassumption).
    all: repeat split; try discriminate; try congruence; none_of_tac.
Qed.

Lemma count_outcome (s : state) name r p :
  reachable cfg b s -> In (ECount name r) (st_trace s) -> count_failure r = Some p ->
  st_status s = Panicked p /\ st_main s = MCount.
Proof.
  intros Hr. revert name r p. induction Hr as [|t s s' Hr IH Hs]; intros name r p Hin Hf.
  - destruct Hin.
  - pose proof (step_running _ _ _ Hs) as Hrun.
    assert (Hold : ~ In (ECount name r) (st_trace s)).
    { intros Hold. destruct (IH _ _ _ Hold Hf) as [E _]. congruence. }
    step_cases Hs.
    all: rewrite ?in_app_iff in Hin; simpl in Hin.
    all: repeat (destruct Hin as [Hin|Hin]); try contradiction; try discriminate.
    all: try (apply in_map_iff in Hin as (? & ? & _); discriminate).
    all: inversion Hin; subst; simpl in Hf; inversion Hf; subst; auto.
Qed.

(** *** The stop channel is closed at most once, and stays closed *)

Lemma signals_app tr1 tr2 : signals (tr1 ++ tr2) = (signals tr1 + signals tr2)%nat.
Proof. unfold signals. now rewrite List.filter_app, length_app. Qed.

Lemma signals_logs g out : signals (map (ELog g) out) = 0%nat.
Proof. induction out; auto. Qed.

Lemma signal_state (s : state) :
  reachable cfg b s ->
  ((phase (st_main s) <= 3)%nat -> st_timer s = NotStarted) /\
  ((stopExecution s = Open /\ signals (st_trace s) = 0%nat /\ st_timer s <> Fired) \/
   (stopExecution s = Closed /\ signals (st_trace s) = 1%nat /\ st_timer s = Fired)).
Proof.
  induction 1 as [|t s s' Hr IH Hs].
  - split; [reflexivity|]. left. repeat split. discriminate.
  - step_cases Hs.
    all: rewrite ?signals_app, ?signals_logs; simpl.
    all: destruct IH as [IH0 IH].
    all: repeat match goal with H : st_main _ = _ |- _ => rewrite H in *; simpl in * end.
    all: split; [try (intros; lia); try assumption; try (intros; congruence)|].
    all: try (rewrite IH0 in * by lia).
    all: destruct IH as [(IH1 & IH2 & IH3)|(IH1 & IH2 & IH3)]; try congruence.
    all: rewrite ?IH2.
    all: try solve [left; repeat split; try congruence; unfold signals; simpl; lia].
    all: try solve [right; repeat split; try congruence; unfold signals; simpl; lia].
    all: rewrite IH1 in *; simpl in *; try discriminate.
    + intros Hp. specialize (IH0 Hp). discriminate.
    + inversion Heqo; subst. right. repeat split.
Qed.

Lemma closed_stays t (s s' : state) :
  step cfg t s = Some s' -> stopExecution s = Closed -> stopExecution s' = Closed.
Proof.
  intros Hs Hc. step_cases Hs; auto.
  rewrite Hc in *. discriminate.
Qed.

Lemma closed_stays_exec sched (s s' : state) :
  exec cfg sched s = Some s' -> stopExecution s = Closed -> stopExecution s' = Closed.
Proof.
  revert s. induction sched as [|t sched IH]; intros s He Hc; simpl in He.
  - congruence.
  - destruct (step cfg t s) eqn:Hs; [|discriminate].
    eapply IH; eauto using closed_stays.
Qed.

(** *** Reasoning on one worker at a time *)

Lemma wtrace_app g tr1 tr2 : wtrace g (tr1 ++ tr2) = wtrace g tr1 ++ wtrace g tr2.
Proof. apply List.filter_app. Qed.

Lemma wtrace_logs g g' out : wtrace g (map (ELog g') out) = [].
Proof. induction out; auto. Qed.

Lemma doLoad_own g stop id name sec lpc pc pc' evs a g' :
  doLoad g stop id name sec lpc pc = Some (pc', evs, a) -> g' <> g -> wtrace g' evs = [].
Proof.
  intros H Hne. unfold doLoad in H. break_match H; inversion H; subst; simpl;
    rewrite ?(proj2 (Nat.eqb_neq g g')) by congruence; reflexivity.
Qed.

Lemma worker_step g (s s' : state) :
  step cfg (TWorker g) s = Some s' ->
  exists w pc evs a out,
    st_workers s !! g = Some w /\
    doLoad g (stopExecution s) (g_id w) (measurementName cfg) (secondsCount cfg)
      (lineProtocolsCount cfg) (g_pc w) = Some (pc, evs, a) /\
    st_workers s' = <[g := {| g_id := g_id w; g_pc := pc |}]> (st_workers s) /\
    st_trace s' = st_trace s ++ evs ++ map (ELog g) out.
Proof.
  unfold step, worker. destruct (st_status s); try discriminate.
  destruct (st_workers s !! g) as [w|]; [|discriminate].
  destruct (doLoad _ _ _ _ _ _ _) as [[[pc evs] a]|] eqn:Hd; [|discriminate].
  intros H. exists w, pc, evs, a.
  destruct a.
  - inversion H; subst; simpl. exists []. rewrite app_nil_r. auto.
  - destruct (Write _ _ _ _) as [b' out]. inversion H; subst; simpl.
    exists out. rewrite <- app_assoc. auto.
  - exists []. rewrite app_nil_r.
    destruct (wg_Done _); inversion H; subst; simpl; auto.
Qed.

Lemma other_step t (s s' : state) :
  step cfg t s = Some s' -> (forall g, t <> TWorker g) ->
  (exists evs, st_trace s' = st_trace s ++ evs /\ forall g, wtrace g evs = []) /\
  (st_workers s' = st_workers s \/
   exists i, st_workers s' = st_workers s ++ [{| g_id := i; g_pc := AtBatch 1 |}]).
Proof.
  intros Hs Hne. destruct t as [| |g]; [| |now destruct (Hne g)].
  all: step_cases Hs.
  all: rewrite <- ?app_assoc.
  all: split; [eexists; split; [try reflexivity; symmetry; apply app_nil_r|reflexivity]|eauto].
Qed.

Lemma worker_invariant (P : nat -> Z -> wpc -> list event -> Prop) :
  (forall g id, P g id (AtBatch 1) []) ->
  (forall g id stop pc l pc' evs a,
      P g id pc l ->
      doLoad g stop id (measurementName cfg) (secondsCount cfg) (lineProtocolsCount cfg) pc
        = Some (pc', evs, a) ->
      P g id pc' (l ++ wtrace g evs)) ->
  forall s : state, reachable cfg b s ->
    (forall g w, st_workers s !! g = Some w -> P g (g_id w) (g_pc w) (wtrace g (st_trace s))) /\
    (forall g, st_workers s !! g = None -> wtrace g (st_trace s) = []).
Proof.
  intros Hinit Hstep. induction 1 as [|t s s' Hr [IH1 IH2] Hs].
  - split; [intros g w Hg; discriminate|reflexivity].
  - destruct t as [| |g0].
    3: {
      destruct (worker_step _ _ _ Hs) as (w0 & pc & evs & a & out & Hw0 & Hd & Hws & Htr).
      rewrite Hws, Htr.
      assert (Hlt : (g0 < length (st_workers s))%nat) by (eapply lookup_lt_Some; eauto).
      split.
      - intros g w Hg. rewrite !wtrace_app, wtrace_logs, app_nil_r.
        destruct (Nat.eq_dec g0 g) as [->|Hne].
        + rewrite list_lookup_insert_eq in Hg by assumption. inversion Hg; subst; simpl.
          eapply Hstep; eauto.
        + rewrite list_lookup_insert_ne in Hg by assumption.
          rewrite (doLoad_own _ _ _ _ _ _ _ _ _ _ g Hd) by congruence.
          rewrite app_nil_r. auto.
      - intros g Hg. rewrite !wtrace_app, wtrace_logs, app_nil_r.
        apply lookup_ge_None in Hg. rewrite length_insert in Hg.
        rewrite (doLoad_own _ _ _ _ _ _ _ _ _ _ g Hd) by lia.
        rewrite app_nil_r. apply IH2. apply lookup_ge_None. lia.
    }
    all: destruct (other_step _ _ _ Hs ltac:(discriminate)) as [(evs & Htr & Hevs) Hws];
         rewrite Htr; split.
    all: try (intros g w Hg; rewrite wtrace_app, Hevs, app_nil_r;
              destruct Hws as [Hws|[i Hws]]; rewrite Hws in Hg; [now apply IH1|];
              destruct (decide (g < length (st_workers s))%nat) as [Hlt|Hge];
              [ rewrite lookup_app_l in Hg by assumption; now apply IH1
              | rewrite lookup_app_r in Hg by lia;
                destruct (g - length (st_workers s))%nat eqn:E; simpl in Hg; [|discriminate];
                inversion Hg; subst; simpl;
                rewrite IH2 by (apply lookup_ge_None; lia); apply Hinit ]).
    all: intros g Hg; rewrite wtrace_app, Hevs, app_nil_r; apply IH2;
         destruct Hws as [Hws|[i Hws]]; rewrite Hws in Hg; [assumption|];
         apply lookup_ge_None in Hg; rewrite length_app in Hg; apply lookup_ge_None; lia.
Qed.

(** *** Every submission has its own look at the stop channel *)

Lemma polled_init g : polled g (AtBatch 1) [].
Proof.
  repeat split; try discriminate; intros; destruct pre; discriminate.
Qed.

Lemma polled_step g id stop pc l pc' evs a :
  polled g pc l ->
  doLoad g stop id (measurementName cfg) (secondsCount cfg) (lineProtocolsCount cfg) pc
    = Some (pc', evs, a) ->
  polled g pc' (l ++ wtrace g evs).
Proof.
  intros (Hw & Hp & Ha) Hd.
  assert (Hrun : forall pre g' at_ post, l <> pre ++ EPoll g' at_ true :: post).
  { intros pre g' at_ post E. destruct (Hp _ _ _ _ E) as [_ ->]. discriminate. }
  clear Hp.
  doLoad_cases Hd; rewrite ?Nat.eqb_refl, ?app_nil_r.
  all: split; [|split].
  all: try (intros i' j' e' E; inversion E; subst; eexists; reflexivity).
  all: try (intros pre g' at_' post E;
            first [ now destruct (Hrun _ _ _ _ E)
                  | apply snoc_split in E as [(-> & -> & E)|(post' & -> & E)];
                    [first [discriminate | split; reflexivity] | now destruct (Hrun _ _ _ _ E)] ]).
  all: intros pre g' id' name' j' post E.
  all: first [ now apply (Hw _ _ _ _ _ _ E)
             | apply snoc_split in E as [(-> & -> & E)|(post' & -> & E)];
               [try discriminate | now apply (Hw _ _ _ _ _ _ E)] ].
  inversion E; subst. now apply (Ha _ _ _ eq_refl).
Qed.

(** *** The sequence numbers of one worker *)

Lemma zrange_nil a b' : b' <= a -> zrange a b' = [].
Proof. intros H. unfold zrange. replace (Z.to_nat (b' - a)) with 0%nat by lia. reflexivity. Qed.

Lemma zrange_snoc a b' : a <= b' -> zrange a (b' + 1) = zrange a b' ++ [b'].
Proof.
  intros H. unfold zrange.
  replace (Z.to_nat (b' + 1 - a)) with (S (Z.to_nat (b' - a))) by lia.
  rewrite seq_S, map_app. simpl. do 3 f_equal. lia.
Qed.

Lemma zrange_cons a b' : a < b' -> zrange a b' = a :: zrange (a + 1) b'.
Proof.
  intros H. unfold zrange.
  replace (Z.to_nat (b' - a)) with (S (Z.to_nat (b' - (a + 1)))) by lia.
  simpl. f_equal; [lia|]. rewrite <- seq_shift, map_map.
  apply map_ext. intros k. lia.
Qed.

Lemma in_zrange a b' x : In x (zrange a b') <-> a <= x < b'.
Proof.
  unfold zrange. rewrite in_map_iff. split.
  - intros (k & <- & Hk). apply in_seq in Hk. lia.
  - intros H. exists (Z.to_nat (x - a)). split; [lia|]. apply in_seq. lia.
Qed.

Lemma zrange_sorted a b' : StronglySorted Z.lt (zrange a b').
Proof.
  remember (Z.to_nat (b' - a)) as n eqn:Hn. revert a Hn.
  induction n as [|n IH]; intros a Hn.
  - rewrite zrange_nil by lia. constructor.
  - rewrite zrange_cons by lia. constructor.
    + apply IH. lia.
    + apply Forall_forall. intros x Hx. apply list_elem_of_In, in_zrange in Hx. lia.
Qed.

Lemma sorted_NoDup (l : list Z) : StronglySorted Z.lt l -> List.NoDup l.
Proof.
  induction 1 as [|x l Hs IH Hx]; constructor; auto.
  intros Hin. rewrite Forall_forall in Hx. apply list_elem_of_In, Hx in Hin. lia.
Qed.

Lemma seqnos_app l1 l2 : seqnos (l1 ++ l2) = seqnos l1 ++ seqnos l2.
Proof.
  induction l1 as [|e l1 IH]; simpl; [reflexivity|].
  destruct (seqno e); simpl; now rewrite IH.
Qed.

Section NoOverflow.

Let sec := secondsCount cfg.
Let lpc := lineProtocolsCount cfg.

Hypothesis Hlpc : 0 < lpc.
Hypothesis Hfit : (sec + 1) * lpc <= GoInt.max_int.

Lemma ordered_step g id stop pc l pc' evs a :
  ordered sec lpc pc (seqnos l) ->
  doLoad g stop id (measurementName cfg) (secondsCount cfg) (lineProtocolsCount cfg) pc
    = Some (pc', evs, a) ->
  ordered sec lpc pc' (seqnos (l ++ wtrace g evs)).
Proof.
  intros Ho Hd. fold sec lpc in Hd.
  doLoad_cases Hd; rewrite ?Nat.eqb_refl, ?seqnos_app; simpl; rewrite ?app_nil_r.
  all: unfold ordered in *.
  all: repeat match goal with H : _ /\ _ |- _ => destruct H end.
  all: repeat match goal with
         | H : (_ <=? _) = true |- _ => apply Z.leb_le in H
         | H : (_ <=? _) = false |- _ => apply Z.leb_gt in H
         | H : (_ <? _) = true |- _ => apply Z.ltb_lt in H
         | H : (_ <? _) = false |- _ => apply Z.ltb_ge in H
         end.
  all: unfold GoInt.mul, GoInt.add, GoInt.incr.
  all: try (assert (lpc <= i * lpc /\ i * lpc + lpc <= (sec + 1) * lpc) as [? ?] by nia).
  all: repeat match goal with
         | |- context [GoInt.wrap ?z] =>
             rewrite (wrap_small z)
               by (unfold GoInt.in_range, GoInt.min_int, GoInt.max_int in *; lia)
         end.
  all: try match goal with
         | H : seqnos _ = zrange ?L ?X |- exists n, _ =>
             exists (X - L); replace (L + (X - L)) with X by lia;
             split; [destruct (Z.max_spec 0 (sec * lpc)); nia|assumption]
         end.
  all: rewrite ?zrange_snoc by lia.
  all: try replace ((i + 1) * lpc) with (i * lpc + lpc) by ring.
  all: repeat split; try lia; try congruence.
  replace (i * lpc + lpc) with j by lia. assumption.
Qed.

End NoOverflow.

(** *** Configurations under which no worker ever submits *)

Lemma silent_step g id stop pc l pc' evs a :
  never_ticks cfg ->
  silent cfg pc (seqnos l) ->
  doLoad g stop id (measurementName cfg) (secondsCount cfg) (lineProtocolsCount cfg) pc
    = Some (pc', evs, a) ->
  silent cfg pc' (seqnos (l ++ wtrace g evs)).
Proof.
  intros HQ [Hws Hpc] Hd. unfold silent.
  doLoad_cases Hd; rewrite ?Nat.eqb_refl, ?seqnos_app; simpl; rewrite ?app_nil_r.
  all: repeat match goal with
         | H : (_ <=? _) = true |- _ => apply Z.leb_le in H
         | H : (_ <=? _) = false |- _ => apply Z.leb_gt in H
         | H : (_ <? _) = true |- _ => apply Z.ltb_lt in H
         | H : (_ <? _) = false |- _ => apply Z.ltb_ge in H
         end.
  all: try (split; [assumption|]); try exact I; try tauto; try lia.
  all: unfold GoInt.mul, GoInt.add, GoInt.incr.
  all: destruct (Z.eq_dec (lineProtocolsCount cfg) 0) as [E0|N0].
  all: try (rewrite E0, Z.mul_0_r, Z.add_0_r; change (GoInt.wrap 0) with 0;
            change (GoInt.wrap 0) with 0; split; [lia|tauto]).
  all: try (left; assumption).
  all: unfold never_ticks in HQ.
  all: try (assert (GoInt.min_int <= i * lineProtocolsCount cfg + lineProtocolsCount cfg /\
                    i * lineProtocolsCount cfg <= 0) as [? ?] by nia).
  all: repeat match goal with
         | |- context [GoInt.wrap ?z] =>
             rewrite (wrap_small z)
               by (unfold GoInt.in_range, GoInt.min_int, GoInt.max_int in *; lia)
         end.
  all: try lia.
Qed.

(** *** Runs without workers *)

Lemma no_workers (s : state) :
  threadsCount cfg <= 0 -> reachable cfg b s ->
  st_workers s = [] /\ none_of is_spawn (st_trace s) /\ none_of is_write (st_trace s) /\
  (forall i, st_main s = MSpawn i -> i = 1).
Proof.
  intros Hn. induction 1 as [|t s s' Hr IH Hs].
  - simpl. repeat split; try apply none_of_nil. discriminate.
  - destruct IH as (IH1 & IH2 & IH3 & IH4).
    step_cases Hs.
    all: try (rewrite IH1 in *; discriminate).
    all: try (specialize (IH4 _ eq_refl); subst; apply Z.leb_le in Heqb0; lia).
    all: repeat split; try assumption; try discriminate; try congruence; none_of_tac.
Qed.

Lemma negative_workers (s : state) :
  int32 (threadsCount cfg) < 0 -> reachable cfg b s ->
  (st_main s = MBegin \/ st_main s = MAdd) /\ wg s = 0 /\ st_workers s = [] /\
  (st_status s = Running \/ st_status s = Panicked negative_counter).
Proof.
  intros Hn. induction 1 as [|t s s' Hr IH Hs].
  - simpl. auto.
  - destruct IH as (IH1 & IH2 & IH3 & IH4).
    pose proof (proj1 (signal_state _ Hr)) as Ht.
    assert (Hns : st_timer s = NotStarted) by (apply Ht; destruct IH1 as [E|E]; rewrite E; simpl; lia).
    clear Ht.
    step_cases Hs.
    all: try congruence.
    all: try (destruct IH1; congruence).
    all: try (rewrite IH3 in *; discriminate).
    all: try (unfold wg_Add in *; rewrite IH2, Z.add_0_l in *; cbv zeta in *;
              destruct (int32 (threadsCount cfg) <? 0) eqn:E; [discriminate|];
              apply Z.ltb_ge in E; lia).
    all: auto.
Qed.

End Runs.

(** ** The control flow does not depend on the backend *)

Section Independence.

Context {B1 B2 : Type} {W1 : Writer B1} {W2 : Writer B2}.
Variable cfg : Config.

Lemma unlogged_app tr1 tr2 : unlogged (tr1 ++ tr2) = unlogged tr1 ++ unlogged tr2.
Proof. apply List.filter_app. Qed.

Lemma unlogged_logs g out : unlogged (map (ELog g) out) = [].
Proof. induction out; auto. Qed.

Lemma step_independent t (s1 s1' : @state B1) (s2 : @state B2) :
  control s1 = control s2 ->
  step (W := W1) cfg t s1 = Some s1' ->
  none_of is_count (st_trace s1') -> none_of is_close (st_trace s1') ->
  exists s2', step (W := W2) cfg t s2 = Some s2' /\ control s1' = control s2'.
Proof.
  intros Hc Hs Hn1 Hn2. unfold control in Hc.
  injection Hc as E1 E2 E3 E4 E5 E6 E7.
  step_cases Hs.
  all: try (exfalso; apply none_of_app_inv in Hn1 as [_ Hn1];
            specialize (Hn1 _ (or_introl eq_refl)); discriminate).
  all: try (exfalso; apply none_of_app_inv in Hn2 as [_ Hn2];
            specialize (Hn2 _ (or_introl eq_refl)); discriminate).
  all: unfold step, main, deadline, worker, doLoad.
  all: rewrite <- ?E1, <- ?E2, <- ?E3, <- ?E4, <- ?E5, <- ?E6.
  all: repeat match goal with H : ?x = _ |- context [?x] => rewrite H end.
  all: try destruct (Write _ _ _ (st_backend s2)) as [b2 out2].
  all: eexists; (split; [reflexivity|]).
  all: unfold control; simpl.
  all: rewrite ?unlogged_app, ?unlogged_logs, ?app_nil_r.
  all: rewrite <- ?E1, <- ?E2, <- ?E3, <- ?E4, <- ?E5, <- ?E6, <- ?E7.
  all: try reflexivity.
  all: try congruence.
Qed.

Lemma exec_trace {B} {W : Writer B} sched (s s' : @state B) :
  exec cfg sched s = Some s' -> exists evs, st_trace s' = st_trace s ++ evs.
Proof.
  revert s. induction sched as [|t sched IH]; intros s He; simpl in He.
  - inversion He. exists []. now rewrite app_nil_r.
  - destruct (step cfg t s) as [sm|] eqn:Hs; [|discriminate].
    destruct (step_trace _ _ _ _ Hs) as [evs1 E1].
    destruct (IH _ He) as [evs2 E2].
    exists (evs1 ++ evs2). now rewrite E2, E1, app_assoc.
Qed.

Lemma exec_independent sched (s1 s1' : @state B1) (s2 : @state B2) :
  control s1 = control s2 ->
  exec (W := W1) cfg sched s1 = Some s1' ->
  none_of is_count (st_trace s1') -> none_of is_close (st_trace s1') ->
  exists s2', exec (W := W2) cfg sched s2 = Some s2' /\ control s1' = control s2'.
Proof.
  revert s1 s2. induction sched as [|t sched IH]; intros s1 s2 Hc He Hn1 Hn2; simpl in *.
  - inversion He; subst. eauto.
  - destruct (step cfg t s1) as [sm|] eqn:Hs; [|discriminate].
    destruct (exec_trace _ _ _ He) as [evs E].
    assert (Hm1 : none_of is_count (st_trace sm))
      by (rewrite E in Hn1; now apply none_of_app_inv in Hn1).
    assert (Hm2 : none_of is_close (st_trace sm))
      by (rewrite E in Hn2; now apply none_of_app_inv in Hn2).
    destruct (step_independent _ _ _ _ Hc Hs Hm1 Hm2) as (sm2 & Hs2 & Hc2).
    rewrite Hs2. eapply IH; eauto.
Qed.

End Independence.

(** ** Driving one worker while the channel is open *)

Section Progress.

Context {B : Type} {W : Writer B}.
Variable cfg : Config.
Variable b : B.

Lemma standing_step g id pc ws (s : state) pc' evs a :
  standing cfg b g id pc ws s ->
  doLoad g Open id (measurementName cfg) (secondsCount cfg) (lineProtocolsCount cfg) pc
    = Some (pc', evs, a) ->
  a <> Return ->
  exists s', standing cfg b g id pc' (ws ++ seqnos (wtrace g evs)) s'.
Proof.
  intros (Hr & Hst & Hop & Hw & Hws) Hd Ha.
  assert (Hlt : (g < length (st_workers s))%nat) by (eapply lookup_lt_Some; eauto).
  assert (exists s', step cfg (TWorker g) s = Some s' /\
            st_status s' = Running /\ stopExecution s' = Open /\
            st_workers s' = <[g := {| g_id := id; g_pc := pc' |}]> (st_workers s) /\
            exists out, st_trace s' = st_trace s ++ evs ++ map (ELog g) out)
    as (s' & Hs & Hst' & Hop' & Hw' & out & Htr).
  { unfold step, worker. rewrite Hst, Hw, Hop. simpl. rewrite Hd.
    destruct a; [| |congruence].
    - eexists; split; [reflexivity|]. simpl. rewrite Hst, Hop.
      repeat split. exists []. now rewrite app_nil_r.
    - destruct (Write _ _ _ _) as [b' out].
      eexists; split; [reflexivity|]. simpl. rewrite Hst, Hop.
      repeat split. exists out. now rewrite <- app_assoc. }
  exists s'. repeat split; auto.
  - eapply reach_step; eauto.
  - rewrite Hw'. now apply list_lookup_insert_eq.
  - unfold writes in *. rewrite Htr, !wtrace_app, wtrace_logs, app_nil_r, seqnos_app.
    now rewrite Hws.
Qed.

Lemma standing_batch g id i ws (s : state) :
  standing cfg b g id (AtBatch i) ws s -> i <= secondsCount cfg ->
  exists s', standing cfg b g id
    (AtTick i (GoInt.mul i (lineProtocolsCount cfg))
       (GoInt.add (GoInt.mul i (lineProtocolsCount cfg)) (lineProtocolsCount cfg))) ws s'.
Proof.
  intros Hs Hi.
  edestruct (standing_step g id (AtBatch i) ws s) as (s' & Hs'); [exact Hs| | |].
  - simpl. rewrite (proj2 (Z.leb_le _ _) Hi). reflexivity.
  - discriminate.
  - exists s'. simpl in Hs'. rewrite Nat.eqb_refl in Hs'.
    destruct (id =? 1); simpl in Hs'; now rewrite app_nil_r in Hs'.
Qed.

Lemma standing_tick g id i j e ws (s : state) :
  standing cfg b g id (AtTick i j e) ws s -> j < e ->
  exists s', standing cfg b g id (AtTick i (GoInt.incr j) e) (ws ++ [j]) s'.
Proof.
  intros Hs Hj.
  edestruct (standing_step g id (AtTick i j e) ws s) as (s1 & Hs1); [exact Hs| | |].
  { simpl. rewrite (proj2 (Z.ltb_lt _ _) Hj). reflexivity. }
  { discriminate. }
  simpl in Hs1. rewrite Nat.eqb_refl in Hs1. simpl in Hs1. rewrite app_nil_r in Hs1.
  edestruct (standing_step g id (AtWrite i j e) ws s1) as (s2 & Hs2); [exact Hs1| | |].
  { simpl. reflexivity. }
  { discriminate. }
  simpl in Hs2. rewrite Nat.eqb_refl in Hs2. simpl in Hs2. eauto.
Qed.

Lemma standing_next g id i j e ws (s : state) :
  standing cfg b g id (AtTick i j e) ws s -> e <= j ->
  exists s', standing cfg b g id (AtBatch (GoInt.incr i)) ws s'.
Proof.
  intros Hs Hj.
  edestruct (standing_step g id (AtTick i j e) ws s) as (s1 & Hs1); [exact Hs| | |].
  { simpl. rewrite (proj2 (Z.ltb_ge _ _) Hj). reflexivity. }
  { discriminate. }
  simpl in Hs1. rewrite app_nil_r in Hs1.
  edestruct (standing_step g id (AtSleep i) ws s1) as (s2 & Hs2); [exact Hs1| | |].
  { simpl. reflexivity. }
  { discriminate. }
  simpl in Hs2. rewrite app_nil_r in Hs2. eauto.
Qed.

(** A whole batch, however long. *)
Lemma standing_run g id i e n : forall j ws (s : state),
  standing cfg b g id (AtTick i j e) ws s -> Z.of_nat n = e - j -> e <= GoInt.max_int ->
  GoInt.min_int <= j ->
  exists s', standing cfg b g id (AtTick i e e) (ws ++ zrange j e) s'.
Proof.
  induction n as [|n IH]; intros j ws s Hs Hn He Hj.
  - replace e with j in * by lia. rewrite zrange_nil, app_nil_r by lia. eauto.
  - destruct (standing_tick _ _ _ _ _ _ _ Hs ltac:(lia)) as (s1 & Hs1).
    unfold GoInt.incr in Hs1.
    rewrite wrap_small in Hs1
      by (unfold GoInt.in_range, GoInt.min_int, GoInt.max_int in *; lia).
    destruct (IH _ _ _ Hs1 ltac:(lia) He ltac:(lia)) as (s2 & Hs2).
    exists s2. rewrite (zrange_cons j e) by lia.
    now rewrite <- app_assoc in Hs2.
Qed.

Lemma standing_batch_run g id i j e ws (s : state) :
  standing cfg b g id (AtTick i j e) ws s -> j <= e -> e <= GoInt.max_int -> GoInt.min_int <= j ->
  exists s', standing cfg b g id (AtTick i e e) (ws ++ zrange j e) s'.
Proof.
  intros Hs Hj He Hm. apply (standing_run g id i e (Z.to_nat (e - j)) j ws s); auto. lia.
Qed.

End Progress.

(** ** The workers and the wait group *)

Lemma int32_small z : in_int32 z -> int32 z = z.
Proof. unfold in_int32, int32. intros H. rewrite Z.mod_small; lia. Qed.

Lemma int32_range z : in_int32 (int32 z).
Proof.
  unfold in_int32, int32.
  pose proof (Z.mod_pos_bound (z + 2 ^ 31) (2 ^ 32) ltac:(lia)). lia.
Qed.

Lemma wg_Add_range c d n : wg_Add c d = Some n -> 0 <= n < 2 ^ 31.
Proof.
  unfold wg_Add. cbv zeta. pose proof (int32_range (c + d)) as H. unfold in_int32 in H.
  destruct (int32 (c + d) <? 0) eqn:E; [discriminate|].
  apply Z.ltb_ge in E. intros [= <-]. lia.
Qed.

Lemma wg_Add_small c d :
  in_int32 (c + d) -> wg_Add c d = if c + d <? 0 then None else Some (c + d).
Proof. intros H. unfold wg_Add. cbv zeta. now rewrite (int32_small _ H). Qed.

Lemma wg_Done_small c :
  0 <= c < 2 ^ 31 -> wg_Done c = if c <? 1 then None else Some (c - 1).
Proof.
  intros H. unfold wg_Done. rewrite wg_Add_small by (unfold in_int32; lia).
  replace (c + -1) with (c - 1) by lia.
  destruct (c - 1 <? 0) eqn:E1, (c <? 1) eqn:E2; try reflexivity.
  - apply Z.ltb_lt in E1. apply Z.ltb_ge in E2. lia.
  - apply Z.ltb_ge in E1. apply Z.ltb_lt in E2. lia.
Qed.

Lemma total_app f ws1 ws2 : total f (ws1 ++ ws2) = total f ws1 + total f ws2.
Proof. induction ws1 as [|w ws1 IH]; simpl; lia. Qed.

Lemma total_insert f ws g (w w' : goroutine) :
  ws !! g = Some w -> total f (<[g := w']> ws) = total f ws - f w + f w'.
Proof.
  revert g. induction ws as [|x ws IH]; intros [|g] H; simpl in *; try discriminate.
  - inversion H; subst. lia.
  - rewrite (IH _ H). lia.
Qed.

Lemma total_bounds f ws lo hi :
  (forall g w, ws !! g = Some w -> lo <= f w <= hi) ->
  lo * Z.of_nat (length ws) <= total f ws <= hi * Z.of_nat (length ws).
Proof.
  induction ws as [|x ws IH]; intros H; simpl length; simpl total; [lia|].
  pose proof (H 0%nat x eq_refl).
  specialize (IH (fun g w Hg => H (S g) w Hg)). lia.
Qed.

Lemma returned_le ws : 0 <= returned ws <= Z.of_nat (length ws).
Proof.
  pose proof (total_bounds (fun w => Z.b2z (has_returned w)) ws 0 1) as H.
  unfold returned. assert (forall g w, ws !! g = Some w -> 0 <= Z.b2z (has_returned w) <= 1).
  { intros g w _. destruct (has_returned w); simpl; lia. }
  specialize (H H0). lia.
Qed.

Lemma returned_lt ws g w :
  ws !! g = Some w -> has_returned w = false -> returned ws < Z.of_nat (length ws).
Proof.
  revert g. induction ws as [|x ws IH]; intros [|g] H Hw; simpl in H; try discriminate.
  - inversion H; subst. unfold returned. simpl total. rewrite Hw. simpl.
    pose proof (returned_le ws). unfold returned in *. simpl length. lia.
  - specialize (IH _ H Hw). unfold returned in *. simpl total. simpl length.
    destruct (has_returned x); simpl; lia.
Qed.

Lemma returned_all ws g w :
  returned ws = Z.of_nat (length ws) -> ws !! g = Some w -> g_pc w = Returned.
Proof.
  intros E Hg. destruct (has_returned w) eqn:Hw.
  - unfold has_returned in Hw. destruct (g_pc w); congruence.
  - pose proof (returned_lt _ _ _ Hg Hw). lia.
Qed.

Lemma doLoad_return g stop id name sec lpc pc pc' evs a :
  doLoad g stop id name sec lpc pc = Some (pc', evs, a) ->
  pc <> Returned /\ (a = Return <-> pc' = Returned).
Proof.
  intros H. unfold doLoad in H. break_match H; inversion H; subst;
    (split; [discriminate|split; congruence]).
Qed.

Lemma existsb_none p tr : none_of p tr -> existsb p tr = false.
Proof.
  induction tr as [|e tr IH]; intros H; simpl; [reflexivity|].
  rewrite (H e (or_introl eq_refl)). apply IH. intros x Hx. apply H. now right.
Qed.

(** The counter stays in the non-negative half of an [int32]. *)
Lemma wg_range {B} {W : Writer B} cfg (b : B) (s : state) :
  reachable cfg b s -> 0 <= wg s < 2 ^ 31.
Proof.
  induction 1 as [|t s s' Hr IH Hs].
  - simpl. lia.
  - step_cases Hs; try assumption.
    all: eapply wg_Add_range; eassumption.
Qed.

(** A step of a worker, with what it does to the wait group. *)
Lemma worker_step_wg {B} {W : Writer B} cfg g (s s' : state) :
  0 <= wg s < 2 ^ 31 ->
  step cfg (TWorker g) s = Some s' ->
  exists w pc evs a,
    st_workers s !! g = Some w /\
    doLoad g (stopExecution s) (g_id w) (measurementName cfg) (secondsCount cfg)
      (lineProtocolsCount cfg) (g_pc w) = Some (pc, evs, a) /\
    st_workers s' = <[g := {| g_id := g_id w; g_pc := pc |}]> (st_workers s) /\
    st_main s' = st_main s /\ st_timer s' = st_timer s /\
    stopExecution s' = stopExecution s /\ st_status s = Running /\
    ((a <> Return /\ wg s' = wg s /\ st_status s' = Running) \/
     (a = Return /\ 1 <= wg s /\ wg s' = wg s - 1 /\ st_status s' = Running) \/
     (a = Return /\ wg s < 1 /\ wg s' = wg s /\ st_status s' = Panicked negative_counter)).
Proof.
  intros Hwg.
  unfold step, worker. destruct (st_status s) eqn:Hst; try discriminate.
  destruct (st_workers s !! g) as [w|]; [|discriminate].
  destruct (doLoad _ _ _ _ _ _ _) as [[[pc evs] a]|] eqn:Hd; [|discriminate].
  intros H. exists w, pc, evs, a.
  destruct a.
  - inversion H; subst; simpl. do 7 (split; [reflexivity || assumption|]).
    left. repeat split; auto; discriminate.
  - destruct (Write _ _ _ _) as [b' out]. inversion H; subst; simpl.
    do 7 (split; [reflexivity || assumption|]).
    left. repeat split; auto; discriminate.
  - rewrite (wg_Done_small _ Hwg) in H. destruct (wg s <? 1) eqn:E.
    + apply Z.ltb_lt in E. inversion H; subst; simpl.
      do 7 (split; [reflexivity || assumption|]).
      right; right. repeat split; auto; lia.
    + apply Z.ltb_ge in E. inversion H; subst; simpl.
      do 7 (split; [reflexivity || assumption|]).
      right; left. repeat split; auto; lia.
Qed.

Lemma deadline_frame {B} {W : Writer B} cfg (s s' : state) :
  step cfg TTimer s = Some s' ->
  st_main s' = st_main s /\ st_workers s' = st_workers s /\ wg s' = wg s /\
  st_backend s' = st_backend s.
Proof. intros Hs. step_cases Hs; auto. Qed.

Section Spawn.

Context {B : Type} {W : Writer B}.
Variable cfg : Config.
Variable b : B.

Hypothesis Hthreads : threadsCount cfg < GoInt.max_int.

(** The loop of lines 91-93, whatever the wait group does. *)
Lemma spawn_state (s : state) :
  reachable cfg b s ->
  (forall g w, st_workers s !! g = Some w -> g_id w = Z.of_nat g + 1) /\
  ((phase (st_main s) <= 1)%nat -> st_workers s = []) /\
  (forall i, st_main s = MSpawn i ->
     i = Z.of_nat (length (st_workers s)) + 1 /\ i <= Z.max 0 (threadsCount cfg) + 1) /\
  ((3 <= phase (st_main s))%nat ->
     Z.of_nat (length (st_workers s)) = Z.max 0 (threadsCount cfg)).
Proof.
  induction 1 as [|t s s' Hr IH Hs].
  - simpl. repeat split; try discriminate; try lia.
  - destruct IH as (I1 & I2 & I3 & I4).
    destruct t as [| |g0].
    3: {
      destruct (worker_step _ _ _ _ Hs) as (w0 & pc & evs & a & out & Hw0 & Hd & Hws & _).
      assert (Hm : st_main s' = st_main s) by (step_cases Hs; reflexivity).
      assert (Hlt : (g0 < length (st_workers s))%nat) by (eapply lookup_lt_Some; eauto).
      rewrite Hm, Hws, length_insert.
      split; [|split; [|split]]; auto.
      - intros g w Hg. destruct (Nat.eq_dec g0 g) as [->|Hne].
        + rewrite list_lookup_insert_eq in Hg by assumption. inversion Hg; subst; simpl.
          now apply I1.
        + rewrite list_lookup_insert_ne in Hg by assumption. now apply I1.
      - intros Hp. rewrite (I2 Hp) in Hw0. discriminate. }
    2: { destruct (deadline_frame _ _ _ Hs) as (-> & -> & _). auto. }
    step_cases Hs.
    all: repeat match goal with H : st_main _ = _ |- _ => rewrite H in *; simpl in * end.
    all: repeat match goal with
           | H : (?x <= ?y)%nat -> _ |- _ =>
               first [specialize (H ltac:(lia)) | clear H]
           | H : forall i, MSpawn ?j = MSpawn i -> _ |- _ => specialize (H _ eq_refl)
           | H : forall i, _ = MSpawn i -> _ |- _ => clear H
           | H : _ /\ _ |- _ => destruct H
           end.
    all: repeat match goal with
           | H : (_ <=? _) = true |- _ => apply Z.leb_le in H
           | H : (_ <=? _) = false |- _ => apply Z.leb_gt in H
           end.
    all: rewrite ?length_app; simpl.
    all: split; [|split; [|split]].
    all: intros; try discriminate; try lia; auto.
    all: repeat match goal with
           | H : MSpawn _ = MSpawn _ |- _ => inversion H; subst; clear H
           | H : st_workers _ = [] |- _ => rewrite H in *
           end; simpl in *.
    all: try (repeat split; lia).
    + match goal with H : (_ ++ _) !! _ = Some _ |- _ => rename H into Hg end.
      destruct (decide (g < length (st_workers s))%nat) as [Hlt|Hge].
      * rewrite lookup_app_l in Hg by assumption. now apply I1.
      * rewrite lookup_app_r in Hg by lia.
        destruct (g - length (st_workers s))%nat eqn:E; simpl in Hg; [|discriminate].
        inversion Hg; subst; simpl. lia.
    + unfold GoInt.incr. rewrite wrap_small
        by (unfold GoInt.in_range, GoInt.min_int, GoInt.max_int in *; lia).
      lia.
Qed.

Lemma workers_le (s : state) :
  reachable cfg b s ->
  Z.of_nat (length (st_workers s)) <= Z.max 0 (threadsCount cfg).
Proof.
  intros Hr. destruct (spawn_state s Hr) as (_ & I2 & I3 & I4).
  destruct (st_main s) eqn:Em; simpl in *;
    try (rewrite (I2 ltac:(lia)); simpl; lia);
    try (rewrite I4 by lia; lia).
  destruct (I3 _ eq_refl). lia.
Qed.

End Spawn.

Lemma in_int32_max_int z : in_int32 z -> z < GoInt.max_int.
Proof. unfold in_int32, GoInt.max_int. lia. Qed.

Section Barrier.

Context {B : Type} {W : Writer B}.
Variable cfg : Config.
Variable b : B.

Hypothesis Hcount : in_int32 (threadsCount cfg).

(** When the number of workers fits in the counter, the counter counts the
    workers that have not returned. *)
Lemma wg_state (s : state) :
  reachable cfg b s ->
  ((phase (st_main s) <= 1)%nat -> wg s = 0) /\
  ((2 <= phase (st_main s))%nat ->
     0 <= threadsCount cfg /\ wg s = threadsCount cfg - returned (st_workers s)) /\
  ((5 <= phase (st_main s))%nat -> returned (st_workers s) = Z.of_nat (length (st_workers s))).
Proof.
  pose proof (in_int32_max_int _ Hcount) as HT.
  induction 1 as [|t s s' Hr IH Hs].
  - simpl. repeat split; try discriminate; try lia.
  - destruct IH as (I2 & I5 & I7).
    destruct (spawn_state cfg b HT s Hr) as (_ & S2 & S3 & S4).
    pose proof (workers_le cfg b HT s Hr) as Hle.
    destruct t as [| |g0].
    3: {
      destruct (worker_step_wg _ _ _ _ (wg_range _ _ _ Hr) Hs)
        as (w0 & pc & evs & a & Hw0 & Hd & Hws & Hm & Ht & Hc & Hst & Hwg).
      destruct (doLoad_return _ _ _ _ _ _ _ _ _ _ Hd) as [Hpc Hret].
      assert (Hlt : (g0 < length (st_workers s))%nat) by (eapply lookup_lt_Some; eauto).
      assert (Hnr : has_returned w0 = false).
      { unfold has_returned. destruct (g_pc w0); congruence. }
      assert (Hph : (2 <= phase (st_main s))%nat).
      { destruct (le_lt_dec 2 (phase (st_main s))) as [?|Hlt1]; [assumption|].
        rewrite (S2 ltac:(lia)) in Hw0. discriminate. }
      destruct (I5 Hph) as [HT0 Hwg0].
      pose proof (returned_lt _ _ _ Hw0 Hnr) as Hrl.
      assert (Hret' : returned (st_workers s') =
                      returned (st_workers s) + Z.b2z (has_returned {| g_id := g_id w0; g_pc := pc |})).
      { rewrite Hws. unfold returned. rewrite (total_insert _ _ _ _ _ Hw0), Hnr. simpl. lia. }
      rewrite Hm, Hws, length_insert.
      split; [|split].
      - lia.
      - intros _. split; [assumption|].
        rewrite <- Hws, Hret'. unfold has_returned. simpl.
        destruct Hwg as [(Ha & E & _)|[(Ha & Hw1 & E & _)|(Ha & Hw1 & E & _)]]; rewrite E.
        + destruct pc; simpl; try lia. destruct Ha. now apply Hret.
        + apply Hret in Ha. subst pc. simpl. lia.
        + lia.
      - intros Hp. specialize (I7 Hp). lia.
    }
    2: { destruct (deadline_frame _ _ _ Hs) as (-> & -> & -> & _). auto. }
    step_cases Hs.
    all: repeat match goal with H : st_main _ = _ |- _ => rewrite H in *; simpl in * end.
    all: repeat match goal with
           | H : (?x <= ?y)%nat -> _ |- _ =>
               first [specialize (H ltac:(lia)) | clear H]
           | H : forall i, MSpawn ?j = MSpawn i -> _ |- _ => specialize (H _ eq_refl)
           | H : forall i, _ = MSpawn i -> _ |- _ => clear H
           | H : _ /\ _ |- _ => destruct H
           end.
    all: repeat match goal with
           | H : (_ <=? _) = true |- _ => apply Z.leb_le in H
           | H : (_ <=? _) = false |- _ => apply Z.leb_gt in H
           end.
    all: try match goal with
           | H1 : wg ?s = 0, H2 : wg_Add (wg ?s) _ = _ |- _ =>
               rewrite H1, wg_Add_small in H2 by (rewrite Z.add_0_l; exact Hcount);
               rewrite Z.add_0_l in H2
           end.
    all: try (unfold wg_Wait in *).
    all: repeat match goal with
           | H : (if ?c then _ else _) = _ |- _ => destruct c eqn:?; try discriminate H
           | H : Some _ = Some _ |- _ => inversion H; subst; clear H
           | H : None = Some _ |- _ => discriminate H
           | H : (_ <? _) = false |- _ => apply Z.ltb_ge in H
           | H : (_ =? _) = true |- _ => apply Z.eqb_eq in H
           end.
    all: unfold returned in *; rewrite ?length_app, ?total_app in *; simpl in *.
    all: split; [|split].
    all: intros; try discriminate; try lia; auto.
    all: repeat match goal with
           | H : st_workers _ = [] |- _ => rewrite H in *
           end; simpl in *.
    all: try (repeat split; lia).
Qed.

Lemma barrier_passed (s : state) :
  reachable cfg b s -> (5 <= phase (st_main s))%nat ->
  forall g, step cfg (TWorker g) s = None.
Proof.
  intros Hr Hp g. destruct (step cfg (TWorker g) s) as [s'|] eqn:Hs; [|reflexivity].
  destruct (worker_step _ _ _ _ Hs) as (w & pc & evs & a & out & Hw & Hd & _).
  destruct (doLoad_return _ _ _ _ _ _ _ _ _ _ Hd) as [Hpc _].
  destruct (wg_state s Hr) as (_ & _ & I7).
  destruct Hpc. eapply returned_all; eauto.
Qed.

End Barrier.

(** ** Every run ends *)




Lemma doLoad_total g stop id name sec lpc pc :
  pc <> Returned -> exists r, doLoad g stop id name sec lpc pc = Some r.
Proof.
  intros H. destruct pc; simpl; try congruence; eauto.
  - destruct (i <=? sec); [destruct (ready stop)|]; eauto.
  - destruct (j <? end_); [destruct (ready stop)|]; eauto.
Qed.

Lemma wpc_eq_Returned pc : pc = Returned \/ pc <> Returned.
Proof. destruct pc; [right|right|right|right|left]; congruence. Qed.

(** A worker that has not returned can take a step. *)
Lemma worker_enabled {B} {W : Writer B} cfg (s : state) g w :
  st_status s = Running -> st_workers s !! g = Some w -> g_pc w <> Returned ->
  exists s', step cfg (TWorker g) s = Some s'.
Proof.
  intros Hst Hg Hpc. unfold step, worker. rewrite Hst, Hg.
  destruct (doLoad_total g (stopExecution s) (g_id w) (measurementName cfg)
              (secondsCount cfg) (lineProtocolsCount cfg) (g_pc w) Hpc) as [[[pc evs] a] ->].
  destruct a.
  - eauto.
  - destruct (Write _ _ _ _). eauto.
  - destruct (wg_Done _); eauto.
Qed.



Section Termination.

Context {B : Type} {W : Writer B}.
Variable cfg : Config.
Variable b : B.

Hypothesis Hthreads : threadsCount cfg < GoInt.max_int.
Hypothesis Hsec : secondsCount cfg < GoInt.max_int.






End Termination.

(** ** The process stops only at [Count] or [Close] *)

Section Completion.

Context {B : Type} {W : Writer B}.
Variable cfg : Config.
Variable b : B.

Hypothesis Hcount : 0 <= threadsCount cfg < 2 ^ 31.





Hypothesis Hsec : secondsCount cfg < GoInt.max_int.


End Completion.

(** ** [main] up to [wg.Wait()] *)

Section Start.

Context {B : Type} {W : Writer B}.
Variable cfg : Config.
Variable b : B.

Lemma before_add (s : state) :
  reachable cfg b s -> (phase (st_main s) <= 1)%nat -> wg s = 0 /\ st_workers s = [].
Proof.
  induction 1 as [|t s s' Hr IH Hs]; intros Hp; [auto|].
  step_cases Hs.
  all: repeat match goal with H : st_main _ = _ |- _ => rewrite H in *; simpl in * end.
  all: try lia; auto.
  all: destruct (IH Hp) as [_ E]; rewrite E in *; discriminate.
Qed.

(** As long as no worker has been started, nothing fails but [wg.Add]. *)
Lemma first_failure (s : state) :
  reachable cfg b s -> st_workers s = [] -> (phase (st_main s) <= 2)%nat ->
  st_status s = Running \/
  (st_main s = MAdd /\ st_status s = Panicked negative_counter /\
   int32 (threadsCount cfg) < 0).
Proof.
  induction 1 as [|t s s' Hr IH Hs]; intros Hw Hp.
  - left. reflexivity.
  - pose proof (before_add s Hr) as Hb.
    step_cases Hs.
    all: repeat match goal with H : st_main _ = _ |- _ => rewrite H in *; simpl in * end.
    all: try lia; auto.
    all: try (destruct (st_workers s); discriminate).
    all: try (pose proof (proj1 (signal_state cfg b s Hr) ltac:(lia)); congruence).
    all: try match goal with
           | H : <[_:=_]> ?ws = [] |- _ =>
               apply (f_equal length) in H; rewrite length_insert in H;
               destruct ws; simpl in *; discriminate
           end.
    right. repeat split; auto.
    destruct (Hb ltac:(lia)) as [E _].
    rewrite E in Heqo.
    unfold wg_Add in Heqo. rewrite Z.add_0_l in Heqo. cbv zeta in Heqo.
    destruct (int32 (threadsCount cfg) <? 0) eqn:E1; [|discriminate].
    now apply Z.ltb_lt in E1.
Qed.

Lemma first_steps :
  exec cfg [TMain; TMain] (init b) =
    match wg_Add 0 (threadsCount cfg) with
    | None => Some (finish (Panicked negative_counter)
                      (emit [EExpected (expected cfg)] (goto MAdd (init b))))
    | Some n => Some (goto (MSpawn 1) (set_wg n
                      (emit [EExpected (expected cfg)] (goto MAdd (init b)))))
    end.
Proof.
  change (exec cfg [TMain; TMain] (init b))
    with (match main cfg (emit [EExpected (expected cfg)] (goto MAdd (init b))) with
          | Some s' => Some s'
          | None => None
          end).
  unfold main. simpl. destruct (wg_Add 0 (threadsCount cfg)); reflexivity.
Qed.

Lemma wg_Add_first :
  wg_Add 0 (threadsCount cfg) =
    if int32 (threadsCount cfg) <? 0 then None else Some (int32 (threadsCount cfg)).
Proof. unfold wg_Add. rewrite Z.add_0_l. reflexivity. Qed.

Lemma add_panics :
  int32 (threadsCount cfg) < 0 ->
  exec cfg [TMain; TMain] (init b)
    = Some (finish (Panicked negative_counter)
              (emit [EExpected (expected cfg)] (goto MAdd (init b)))).
Proof.
  intros H. rewrite first_steps, wg_Add_first, (proj2 (Z.ltb_lt _ _) H). reflexivity.
Qed.

Hypothesis Hthreads : threadsCount cfg < GoInt.max_int.

Lemma spawn_loop n : forall (s : state) i,
  st_status s = Running -> st_main s = MSpawn i -> 1 <= i ->
  Z.of_nat n = Z.max 0 (threadsCount cfg + 1 - i) ->
  Forall (fun w => g_pc w = AtBatch 1) (st_workers s) ->
  exists s', exec cfg (repeat TMain n) s = Some s' /\
    st_status s' = Running /\ st_main s' = MSpawn (i + Z.of_nat n) /\
    length (st_workers s') = (length (st_workers s) + n)%nat /\
    Forall (fun w => g_pc w = AtBatch 1) (st_workers s') /\
    wg s' = wg s /\ st_timer s' = st_timer s /\ stopExecution s' = stopExecution s.
Proof.
  induction n as [|n IH]; intros s i Hst Hm Hi Hn Hall.
  - exists s. simpl. rewrite Z.add_0_r, Nat.add_0_r. auto 10.
  - assert (Hle : i <= threadsCount cfg) by lia.
    simpl exec. unfold step, main. rewrite Hst, Hm, (proj2 (Z.leb_le _ _) Hle).
    unfold GoInt.incr. rewrite wrap_small
      by (unfold GoInt.in_range, GoInt.min_int, GoInt.max_int in *; lia).
    edestruct (IH (emit [ESpawn (length (st_workers s)) i]
                     (goto (MSpawn (i + 1))
                        (set_workers (st_workers s ++ [{| g_id := i; g_pc := AtBatch 1 |}]) s)))
                 (i + 1))
      as (s' & He & H1 & H2 & H3 & H4 & H5 & H6 & H7); simpl; auto; try lia.
    { apply Forall_app. split; [assumption|]. constructor; [reflexivity|constructor]. }
    exists s'. split; [exact He|]. simpl in *. rewrite length_app in H3. simpl in H3.
    repeat split; auto; try lia.
    rewrite H2. f_equal. lia.
Qed.

(** When [wg.Add] does not panic, [main] starts the workers, then the
    deadline goroutine, and waits. *)
Lemma spawn_run :
  0 <= int32 (threadsCount cfg) ->
  exists s : state,
    exec cfg (repeat TMain (Z.to_nat (Z.max 0 (threadsCount cfg)) + 4)) (init b) = Some s /\
    st_status s = Running /\ st_main s = MWait /\
    Z.of_nat (length (st_workers s)) = Z.max 0 (threadsCount cfg) /\
    (forall g w, st_workers s !! g = Some w ->
       w = {| g_id := Z.of_nat g + 1; g_pc := AtBatch 1 |} /\
       exists s', step cfg (TWorker g) s = Some s') /\
    wg s = int32 (threadsCount cfg) /\ st_timer s = Sleeping /\ stopExecution s = Open.
Proof.
  intros Hadd.
  replace (Z.to_nat (Z.max 0 (threadsCount cfg)) + 4)%nat
    with (2 + (Z.to_nat (Z.max 0 (threadsCount cfg)) + 2))%nat by lia.
  rewrite !repeat_app, !exec_app.
  change (repeat TMain 2) with [TMain; TMain].
  rewrite first_steps, wg_Add_first, (proj2 (Z.ltb_ge _ _) Hadd).
  rewrite exec_app.
  match goal with
  | |- context [exec cfg (repeat TMain ?n) ?s0] =>
      destruct (spawn_loop n s0 1) as (s1 & He & H1 & H2 & H3 & H4 & H5 & H6 & H7);
        [reflexivity|reflexivity|lia|lia|constructor|]
  end.
  rewrite He. simpl in H3, H5, H6, H7.
  simpl exec. unfold step, main.
  rewrite H1, H2, (proj2 (Z.leb_gt _ _)) by lia.
  simpl. rewrite H1. simpl.
  eexists. split; [reflexivity|]. simpl.
  assert (Hr : reachable cfg b s1).
  { apply (reachable_exec cfg b (repeat TMain (Z.to_nat (Z.max 0 (threadsCount cfg))))
             (goto (MSpawn 1) (set_wg (int32 (threadsCount cfg))
                (emit [EExpected (expected cfg)] (goto MAdd (init b)))))); [|exact He].
    apply (run_reachable cfg b [TMain; TMain]).
    rewrite first_steps, wg_Add_first, (proj2 (Z.ltb_ge _ _) Hadd). reflexivity. }
  destruct (spawn_state cfg b Hthreads s1 Hr) as (S1 & _).
  split; [exact H1|]. split; [reflexivity|]. split; [lia|].
  split; [|repeat split; assumption].
  intros g w H. split.
  - destruct w as [id pc]. f_equal.
    + apply (S1 _ _ H).
    + rewrite Forall_forall in H4. apply (H4 {| g_id := id; g_pc := pc |}).
      eapply list_elem_of_lookup_2; eauto.
  - destruct (worker_enabled cfg
                (emit [ETimer] (goto MWait (set_timer Sleeping (goto MTimer s1)))) g w)
      as [s' Hs']; [exact H1|exact H| |exists s'; exact Hs'].
    rewrite Forall_forall in H4. rewrite (H4 w); [discriminate|].
    eapply list_elem_of_lookup_2; eauto.
Qed.

End Start.

(** ** The claims *)

Lemma stopped_process {B} {W : Writer B} cfg t (s : @state B) :
  st_status s <> Running -> step cfg t s = None.
Proof. unfold step. destruct (st_status s); congruence. Qed.

Lemma in_writes g id name j tr : In (EWrite g id name j) tr -> In j (writes g tr).
Proof.
  unfold writes. induction tr as [|e tr IH]; simpl; [auto|].
  intros [->|Hin].
  - simpl. rewrite Nat.eqb_refl. simpl. auto.
  - destruct (of_worker g e); simpl; auto.
    destruct (seqno e); simpl; auto.
Qed.

(** [C1], as amended: for every valid configuration whose product
    [threadsCount * secondsCount * lineProtocolsCount] fits in an [int], the
    expected size is that product, and in every run, whatever the backend
    and the schedule, it is the first thing in the trace: nothing precedes
    it, no worker is started before it, and it is reported once. *)
Theorem expected_from_config {B} {W : Writer B} (cfg : Config) (b : B) (s : state) :
  valid cfg ->
  threadsCount cfg * secondsCount cfg * lineProtocolsCount cfg <= GoInt.max_int ->
  reachable cfg b s ->
  expected cfg = threadsCount cfg * secondsCount cfg * lineProtocolsCount cfg /\
  ((st_trace s = [] /\ st_workers s = []) \/
   exists rest,
     st_trace s =
       EExpected (threadsCount cfg * secondsCount cfg * lineProtocolsCount cfg) :: rest /\
     none_of is_expected rest).
Proof.
  intros (Ht & Hs & Hl) Hfit Hr.
  assert (E : expected cfg = threadsCount cfg * secondsCount cfg * lineProtocolsCount cfg).
  { apply expected_exact. unfold GoInt.in_range, GoInt.min_int. split; [|assumption].
    assert (0 < threadsCount cfg * secondsCount cfg) by lia.
    assert (0 < threadsCount cfg * secondsCount cfg * lineProtocolsCount cfg) by lia.
    lia. }
  split; [exact E|].
  destruct (expected_first cfg b s Hr) as [(H1 & _ & H3 & _)|(rest & H1 & _ & H3)].
  - left. auto.
  - right. exists rest. rewrite <- E. auto.
Qed.

Lemma expected_from_config_witness :
  exists s : @state Sim.server1,
    exec (W := V1.WriterV1) Sim.scenarioA (Sim.start 1 ++ Sim.runs (TWorker 0) 3)
      (init Sim.server1_up) = Some s /\
    expected Sim.scenarioA = 1 * 2 * 3 /\
    ((st_trace s = [] /\ st_workers s = []) \/
     exists rest, st_trace s = EExpected (1 * 2 * 3) :: rest /\ none_of is_expected rest).
Proof.
  eexists. split; [vm_compute; reflexivity|].
  apply (expected_from_config (W := V1.WriterV1) Sim.scenarioA Sim.server1_up).
  - unfold valid; simpl; lia.
  - unfold GoInt.max_int; simpl; lia.
  - apply (run_reachable _ _ (Sim.start 1 ++ Sim.runs (TWorker 0) 3)). vm_compute; reflexivity.
Defined.

Lemma expected_wraps_around :
  valid Sim.overflowing /\ representable Sim.overflowing /\
  expected Sim.overflowing = -9223372036854771616 /\
  expected Sim.overflowing <>
    threadsCount Sim.overflowing * secondsCount Sim.overflowing *
    lineProtocolsCount Sim.overflowing.
Proof.
  repeat split; try (vm_compute; congruence).
Qed.

(** [C7]: in every run with [skipCount] set, [main] never stands at the call
    of [Count] nor at the report, [Count] is never called, and no result with
    an observed count is ever reported. *)
Theorem skipCount_skips_counting {B} {W : Writer B} (cfg : Config) (b : B) (s : state) :
  skipCount cfg = true -> reachable cfg b s ->
  st_main s <> MCount /\ (forall total, st_main s <> MReport total) /\
  none_of is_count (st_trace s) /\ none_of is_report (st_trace s).
Proof. apply skipCount_phases. Qed.

Lemma skipCount_skips_counting_witness :
  exists s : @state Sim.server1,
    exec (W := V1.WriterV1) Sim.scenarioA
      (Sim.start 1 ++ Sim.runs (TWorker 0) 19 ++ [TMain; TMain]) (init Sim.server1_up) = Some s /\
    st_status s = Exited /\
    st_main s <> MCount /\ (forall total, st_main s <> MReport total) /\
    none_of is_count (st_trace s) /\ none_of is_report (st_trace s).
Proof.
  eexists. split; [vm_compute; reflexivity|]. split; [reflexivity|].
  apply (skipCount_skips_counting (W := V1.WriterV1) Sim.scenarioA Sim.server1_up).
  - reflexivity.
  - apply (run_reachable _ _ (Sim.start 1 ++ Sim.runs (TWorker 0) 19 ++ [TMain; TMain])).
    vm_compute; reflexivity.
Defined.

(** [C2], as amended: in every run in which [Count] is called and returns an
    error, counting was not skipped, [main] panics with that error where it
    stands (line 111), no result is reported, [Close] has not been called, and
    it never will be: no goroutine moves any more. *)
Theorem count_error_panics_without_close {B} {W : Writer B} (cfg : Config) (b : B)
    (s : state) (name : string) (total : Z) (err : error) :
  reachable cfg b s ->
  In (ECount name (Returns (total, Some err))) (st_trace s) ->
  skipCount cfg = false /\
  st_status s = Panicked (PError err) /\ st_main s = MCount /\
  none_of is_report (st_trace s) /\ none_of is_close (st_trace s) /\
  forall t, step cfg t s = None.
Proof.
  intros Hr Hin.
  destruct (count_outcome cfg b s _ _ _ Hr Hin eq_refl) as [Hst Hm].
  destruct (before_count cfg b s Hr) as (_ & _ & H3).
  rewrite Hm in H3. destruct (H3 ltac:(simpl; lia)) as [Hrep Hcl].
  repeat split; auto.
  - destruct (skipCount cfg) eqn:E; [|reflexivity].
    destruct (skipCount_phases cfg b s E Hr) as (_ & _ & Hc & _).
    specialize (Hc _ Hin). discriminate.
  - intros t. apply stopped_process. rewrite Hst. discriminate.
Qed.

Lemma count_error_panics_without_close_witness :
  exists s : @state Sim.server2,
    exec (W := V2.WriterV2) Sim.small2
      (Sim.start 2 ++ Sim.runs (TWorker 0) 8 ++ Sim.runs (TWorker 1) 8 ++ [TMain; TMain])
      (init Sim.server2_unauthorized) = Some s /\
    skipCount Sim.small2 = false /\
    st_status s = Panicked (PError "unauthorized access") /\ st_main s = MCount /\
    none_of is_report (st_trace s) /\ none_of is_close (st_trace s) /\
    forall t, step (W := V2.WriterV2) Sim.small2 t s = None.
Proof.
  eexists. split; [vm_compute; reflexivity|].
  apply (count_error_panics_without_close (W := V2.WriterV2) Sim.small2
           Sim.server2_unauthorized _ "sensor_0" 0 "unauthorized access").
  - apply (run_reachable _ _
      (Sim.start 2 ++ Sim.runs (TWorker 0) 8 ++ Sim.runs (TWorker 1) 8 ++ [TMain; TMain])).
    vm_compute; reflexivity.
  - simpl. repeat (first [left; reflexivity | right]).
Defined.

Lemma count_error_skips_close :
  exists s : @state (Sim.server1 + Sim.server2),
    exec (W := writer) Sim.small2
      (Sim.start 2 ++ Sim.runs (TWorker 0) 8 ++ Sim.runs (TWorker 1) 8 ++ [TMain; TMain])
      (init (new_writer Sim.small2 Sim.server1_up Sim.server2_unauthorized)) = Some s /\
    In (ECount "sensor_0" (Returns (0, Some "unauthorized access"))) (st_trace s) /\
    st_status s = Panicked (PError "unauthorized access") /\
    List.filter is_close (st_trace s) = [] /\
    forall t, step (W := writer) Sim.small2 t s = None.
Proof.
  eexists. split; [vm_compute; reflexivity|].
  split; [simpl; repeat (first [left; reflexivity | right])|].
  split; [reflexivity|]. split; [reflexivity|].
  intros t. apply stopped_process. discriminate.
Qed.

(** [C5], as amended: the stop channel is closed at most once in a run, so a
    second signal never happens; it is closed exactly when the one signal is
    in the trace, and once closed it is closed in every later state of the
    run, with still one signal in the trace. *)
Theorem stop_signal_once {B} {W : Writer B} (cfg : Config) (b : B) (s : state) :
  reachable cfg b s ->
  (signals (st_trace s) <= 1)%nat /\
  (stopExecution s = Closed <-> signals (st_trace s) = 1%nat) /\
  forall sched s',
    exec cfg sched s = Some s' -> stopExecution s = Closed ->
    stopExecution s' = Closed /\ signals (st_trace s') = 1%nat.
Proof.
  intros Hr.
  destruct (signal_state cfg b s Hr) as [_ Hs].
  split; [|split].
  - destruct Hs as [(_ & -> & _)|(_ & -> & _)]; lia.
  - destruct Hs as [(H1 & H2 & _)|(H1 & H2 & _)]; rewrite H1, H2; split; congruence.
  - intros sched s' He Hc.
    assert (Hc' : stopExecution s' = Closed) by (eapply closed_stays_exec; eauto).
    split; [assumption|].
    destruct (signal_state cfg b s' (reachable_exec cfg b _ _ _ Hr He)) as [_ Hs'].
    destruct Hs' as [(H1 & _)|(_ & H2 & _)]; congruence.
Qed.

Lemma stop_signal_once_witness :
  exists s : @state unit,
    exec (W := Sim.null) Sim.scenarioA (Sim.start 1 ++ [TWorker 0; TTimer]) (init tt) = Some s /\
    (signals (st_trace s) <= 1)%nat /\
    (stopExecution s = Closed <-> signals (st_trace s) = 1%nat) /\
    forall sched s',
      exec (W := Sim.null) Sim.scenarioA sched s = Some s' -> stopExecution s = Closed ->
      stopExecution s' = Closed /\ signals (st_trace s') = 1%nat.
Proof.
  eexists. split; [vm_compute; reflexivity|].
  apply (stop_signal_once (W := Sim.null) Sim.scenarioA tt).
  apply (run_reachable _ _ (Sim.start 1 ++ [TWorker 0; TTimer])). vm_compute; reflexivity.
Defined.

Lemma second_signal_panics :
  exists s : @state unit,
    exec (W := Sim.null) Sim.scenarioA (Sim.start 1 ++ [TTimer]) (init tt) = Some s /\
    stopExecution s = Closed /\
    close (stopExecution s) = None /\
    deadline (set_timer Sleeping s) =
      Some (finish (Panicked close_of_closed) (set_timer Sleeping s)).
Proof.
  eexists. split; [vm_compute; reflexivity|]. repeat split.
Qed.

Lemma silent_run {B} {W : Writer B} (cfg : Config) (b : B) (s : state) :
  never_ticks cfg -> reachable cfg b s -> none_of is_write (st_trace s).
Proof.
  intros HQ Hr e He. destruct e; try reflexivity. exfalso.
  apply in_writes in He.
  destruct (worker_invariant cfg b (fun _ _ pc l => silent cfg pc (seqnos l))) with (s := s)
    as [H1 H2]; auto.
  - intros. split; [reflexivity|]. right. lia.
  - intros. eapply silent_step; eauto.
  - unfold writes in He. destruct (st_workers s !! g) as [w|] eqn:Hg.
    + destruct (H1 _ _ Hg) as [E _]. rewrite E in He. destruct He.
    + rewrite (H2 _ Hg) in He. destruct He.
Qed.

(** [C3], as amended: no configuration is rejected, there is no validation.
    Whatever the configuration, as long as no worker has been started and
    [main] has not left the loop of lines 91-93, the process is running
    unless [wg.Add] (line 87) has panicked; [wg.Add] panics exactly when the
    worker count, cut to the 32 bits of the counter of the wait group, is
    negative, and then no worker is ever started.  When [wg.Add] does not
    panic and the worker count is below the greatest [int], [main] starts as
    many workers as were asked for, none for a count that is not positive,
    then the deadline goroutine, and waits; each worker started can run.
    With a worker count that is not positive nothing is ever submitted.
    With no second, no tick per second, or a negative number of ticks per
    second whose multiples stay in range, nothing is submitted either. *)
Theorem invalid_config_not_rejected {B} {W : Writer B} (cfg : Config) (b : B) (s : state) :
  reachable cfg b s ->
  (st_workers s = [] -> (phase (st_main s) <= 2)%nat ->
     st_status s = Running \/
     (st_main s = MAdd /\ st_status s = Panicked negative_counter /\
      int32 (threadsCount cfg) < 0)) /\
  (int32 (threadsCount cfg) < 0 ->
     exec cfg [TMain; TMain] (init b)
       = Some (finish (Panicked negative_counter)
                 (emit [EExpected (expected cfg)] (goto MAdd (init b)))) /\
     st_workers s = [] /\ (st_main s = MBegin \/ st_main s = MAdd)) /\
  (0 <= int32 (threadsCount cfg) -> threadsCount cfg < GoInt.max_int ->
     exists s0 : state,
       exec cfg (repeat TMain (Z.to_nat (Z.max 0 (threadsCount cfg)) + 4)) (init b)
         = Some s0 /\
       st_status s0 = Running /\ st_main s0 = MWait /\ st_timer s0 = Sleeping /\
       Z.of_nat (length (st_workers s0)) = Z.max 0 (threadsCount cfg) /\
       forall g w, st_workers s0 !! g = Some w ->
         w = {| g_id := Z.of_nat g + 1; g_pc := AtBatch 1 |} /\
         exists s', step cfg (TWorker g) s0 = Some s') /\
  (threadsCount cfg <= 0 ->
     st_workers s = [] /\ none_of is_spawn (st_trace s) /\ none_of is_write (st_trace s)) /\
  (never_ticks cfg -> none_of is_write (st_trace s)).
Proof.
  intros Hr. split; [|split; [|split; [|split]]].
  - now apply (first_failure cfg b).
  - intros Hn. destruct (negative_workers cfg b s Hn Hr) as (H1 & _ & H3 & _).
    split; [now apply add_panics|auto].
  - intros Hadd HT.
    destruct (spawn_run cfg b HT Hadd) as (s0 & He & H1 & H2 & H3 & H4 & _ & H6 & _).
    exists s0. auto 10.
  - intros Hn. destruct (no_workers cfg b s Hn Hr) as (H1 & H2 & H3 & _). auto.
  - intros HQ. now apply (silent_run cfg b).
Qed.

Lemma invalid_config_not_rejected_witness :
  exists s : @state unit,
    exec (W := Sim.null) Sim.tickless (Sim.start 1 ++ [TWorker 0]) (init tt) = Some s /\
    ~ valid Sim.tickless /\
    st_workers s = [ {| g_id := 1; g_pc := AtTick 1 0 0 |} ] /\
    (st_workers s = [] -> (phase (st_main s) <= 2)%nat ->
       st_status s = Running \/
       (st_main s = MAdd /\ st_status s = Panicked negative_counter /\
        int32 (threadsCount Sim.tickless) < 0)) /\
    (int32 (threadsCount Sim.tickless) < 0 ->
       exec (W := Sim.null) Sim.tickless [TMain; TMain] (init tt)
         = Some (finish (Panicked negative_counter)
                   (emit [EExpected (expected Sim.tickless)] (goto MAdd (init tt)))) /\
       st_workers s = [] /\ (st_main s = MBegin \/ st_main s = MAdd)) /\
    (0 <= int32 (threadsCount Sim.tickless) -> threadsCount Sim.tickless < GoInt.max_int ->
       exists s0 : @state unit,
         exec (W := Sim.null) Sim.tickless
           (repeat TMain (Z.to_nat (Z.max 0 (threadsCount Sim.tickless)) + 4)) (init tt)
           = Some s0 /\
         st_status s0 = Running /\ st_main s0 = MWait /\ st_timer s0 = Sleeping /\
         Z.of_nat (length (st_workers s0)) = Z.max 0 (threadsCount Sim.tickless) /\
         forall g w, st_workers s0 !! g = Some w ->
           w = {| g_id := Z.of_nat g + 1; g_pc := AtBatch 1 |} /\
           exists s', step (W := Sim.null) Sim.tickless (TWorker g) s0 = Some s') /\
    (threadsCount Sim.tickless <= 0 ->
       st_workers s = [] /\ none_of is_spawn (st_trace s) /\ none_of is_write (st_trace s)) /\
    (never_ticks Sim.tickless -> none_of is_write (st_trace s)).
Proof.
  eexists. split; [vm_compute; reflexivity|].
  split; [unfold valid; simpl; lia|]. split; [reflexivity|].
  apply (invalid_config_not_rejected (W := Sim.null) Sim.tickless tt).
  apply (run_reachable _ _ (Sim.start 1 ++ [TWorker 0])). vm_compute; reflexivity.
Defined.

Lemma invalid_config_runs_workers :
  ~ valid Sim.tickless /\
  exists s : @state unit,
    exec (W := Sim.null) Sim.tickless
      (Sim.start 1 ++ Sim.runs (TWorker 0) 4 ++ [TMain; TMain]) (init tt) = Some s /\
    st_status s = Exited /\
    st_trace s = [EExpected 0; ESpawn 0 1; ETimer; EPoll 0 (BatchHead 1) false;
                  EProgress 1 1; EClose None].
Proof.
  split.
  - unfold valid. simpl. lia.
  - eexists. split; [vm_compute; reflexivity|]. split; reflexivity.
Qed.

(** [C4]: in every run and for every worker, each submission of the worker
    comes right after a look of that worker at the stop channel, made for
    that very tick, which found the channel open; and once a look has found
    the channel closed the worker does nothing more: no submission, no other
    look, no new batch, and it has returned. *)
Theorem stop_checked_before_each_submission {B} {W : Writer B} (cfg : Config) (b : B)
    (s : state) (g : nat) :
  reachable cfg b s ->
  (forall pre g' id name j post,
      wtrace g (st_trace s) = pre ++ EWrite g' id name j :: post ->
      exists pre', pre = pre' ++ [EPoll g (TickHead j) false]) /\
  (forall pre g' at_ post,
      wtrace g (st_trace s) = pre ++ EPoll g' at_ true :: post ->
      post = [] /\
      exists w, st_workers s !! g = Some w /\ g_pc w = Returned /\
                step cfg (TWorker g) s = None).
Proof.
  intros Hr.
  destruct (worker_invariant cfg b (fun g _ pc l => polled g pc l)) with (s := s)
    as [H1 H2]; auto.
  { intros. apply polled_init. }
  { intros. eapply polled_step; eauto. }
  destruct (st_workers s !! g) as [w|] eqn:Hg.
  - destruct (H1 _ _ Hg) as (Hw & Hp & _). split; [exact Hw|].
    intros pre g' at_ post E. destruct (Hp _ _ _ _ E) as [-> Hpc].
    split; [reflexivity|]. exists w. repeat split; auto.
    unfold step, worker. destruct (st_status s); auto. rewrite Hg, Hpc. reflexivity.
  - rewrite (H2 _ Hg). split; intros; destruct pre; discriminate.
Qed.

Lemma stop_checked_before_each_submission_witness :
  exists s : @state unit,
    exec (W := Sim.null) Sim.scenarioA
      (Sim.start 1 ++ Sim.runs (TWorker 0) 4 ++ [TTimer] ++ Sim.runs (TWorker 0) 2)
      (init tt) = Some s /\
    wtrace 0 (st_trace s) =
      [EPoll 0 (BatchHead 1) false; EPoll 0 (TickHead 3) false; EWrite 0 1 "sensor_0" 3;
       EPoll 0 (TickHead 4) false; EWrite 0 1 "sensor_0" 4; EPoll 0 (TickHead 5) true] /\
    (forall pre g' id name j post,
        wtrace 0 (st_trace s) = pre ++ EWrite g' id name j :: post ->
        exists pre', pre = pre' ++ [EPoll 0 (TickHead j) false]) /\
    (forall pre g' at_ post,
        wtrace 0 (st_trace s) = pre ++ EPoll g' at_ true :: post ->
        post = [] /\
        exists w, st_workers s !! 0%nat = Some w /\ g_pc w = Returned /\
                  step (W := Sim.null) Sim.scenarioA (TWorker 0) s = None).
Proof.
  eexists. split; [vm_compute; reflexivity|]. split; [reflexivity|].
  apply (stop_checked_before_each_submission (W := Sim.null) Sim.scenarioA tt).
  apply (run_reachable _ _
    (Sim.start 1 ++ Sim.runs (TWorker 0) 4 ++ [TTimer] ++ Sim.runs (TWorker 0) 2)).
  vm_compute; reflexivity.
Defined.

(** [C6], as amended: when the number of ticks per second is positive and
    [(secondsCount + 1) * lineProtocolsCount] fits in an [int], the sequence
    numbers submitted by one worker are, in order of submission,
    [lineProtocolsCount, lineProtocolsCount + 1, ...] without a gap: they are
    strictly increasing and none is submitted twice; and a worker about to
    submit in second [i] submits a number of
    [i * lineProtocolsCount, ..., i * lineProtocolsCount + lineProtocolsCount - 1],
    all the numbers below it having been submitted. *)
Theorem sequence_numbers_in_order {B} {W : Writer B} (cfg : Config) (b : B)
    (s : state) (g : nat) :
  0 < lineProtocolsCount cfg ->
  (secondsCount cfg + 1) * lineProtocolsCount cfg <= GoInt.max_int ->
  reachable cfg b s ->
  (exists n, 0 <= n <= Z.max 0 (secondsCount cfg * lineProtocolsCount cfg) /\
             writes g (st_trace s) =
               zrange (lineProtocolsCount cfg) (lineProtocolsCount cfg + n)) /\
  StronglySorted Z.lt (writes g (st_trace s)) /\
  List.NoDup (writes g (st_trace s)) /\
  (forall w i j e,
      st_workers s !! g = Some w -> g_pc w = AtWrite i j e ->
      1 <= i <= secondsCount cfg /\
      i * lineProtocolsCount cfg <= j < i * lineProtocolsCount cfg + lineProtocolsCount cfg /\
      writes g (st_trace s) = zrange (lineProtocolsCount cfg) j).
Proof.
  intros Hlpc Hfit Hr.
  set (sec := secondsCount cfg) in *. set (lpc := lineProtocolsCount cfg) in *.
  destruct (worker_invariant cfg b (fun _ _ pc l => ordered sec lpc pc (seqnos l)))
    with (s := s) as [H1 H2]; auto.
  { intros. simpl. repeat split; try lia. rewrite zrange_nil by lia. reflexivity. }
  { intros. eapply ordered_step; eauto. }
  assert (Hex : exists n, 0 <= n <= Z.max 0 (sec * lpc) /\
                          writes g (st_trace s) = zrange lpc (lpc + n)).
  { unfold writes. destruct (st_workers s !! g) as [w|] eqn:Hg.
    - specialize (H1 _ _ Hg). destruct (g_pc w) as [i|i j e|i j e|i|]; simpl in H1.
      + destruct H1 as (Hi & Hi' & E). exists (i * lpc - lpc).
        replace (lpc + (i * lpc - lpc)) with (i * lpc) by lia.
        split; [destruct (Z.max_spec 0 (sec * lpc)); nia|assumption].
      + destruct H1 as (Hi & -> & Hj & E). exists (j - lpc).
        replace (lpc + (j - lpc)) with j by lia.
        split; [destruct (Z.max_spec 0 (sec * lpc)); nia|assumption].
      + destruct H1 as (Hi & -> & Hj & E). exists (j - lpc).
        replace (lpc + (j - lpc)) with j by lia.
        split; [destruct (Z.max_spec 0 (sec * lpc)); nia|assumption].
      + destruct H1 as (Hi & E). exists (i * lpc).
        replace (lpc + i * lpc) with (i * lpc + lpc) by lia.
        split; [destruct (Z.max_spec 0 (sec * lpc)); nia|assumption].
      + exact H1.
    - rewrite (H2 _ Hg). exists 0. split; [lia|].
      rewrite zrange_nil by lia. reflexivity. }
  split; [exact Hex|].
  destruct Hex as (n & _ & E).
  split; [rewrite E; apply zrange_sorted|].
  split; [rewrite E; apply sorted_NoDup, zrange_sorted|].
  intros w i j e Hg Hpc. specialize (H1 _ _ Hg). rewrite Hpc in H1. simpl in H1.
  destruct H1 as (Hi & -> & Hj & Hws). auto.
Qed.

Lemma sequence_numbers_in_order_witness :
  exists s : @state unit,
    exec (W := Sim.null) Sim.scenarioA (Sim.start 1 ++ Sim.runs (TWorker 0) 13) (init tt)
      = Some s /\
    writes 0 (st_trace s) = [3; 4; 5; 6] /\
    (exists n, 0 <= n <= Z.max 0 (2 * 3) /\ writes 0 (st_trace s) = zrange 3 (3 + n)) /\
    StronglySorted Z.lt (writes 0 (st_trace s)) /\
    List.NoDup (writes 0 (st_trace s)) /\
    (forall w i j e,
        st_workers s !! 0%nat = Some w -> g_pc w = AtWrite i j e ->
        1 <= i <= 2 /\ i * 3 <= j < i * 3 + 3 /\ writes 0 (st_trace s) = zrange 3 j).
Proof.
  eexists. split; [vm_compute; reflexivity|]. split; [reflexivity|].
  apply (sequence_numbers_in_order (W := Sim.null) Sim.scenarioA tt).
  - simpl. lia.
  - unfold GoInt.max_int. simpl. lia.
  - apply (run_reachable _ _ (Sim.start 1 ++ Sim.runs (TWorker 0) 13)). vm_compute; reflexivity.
Defined.

Lemma snoc_shape {A} (l rest : list A) a x : l = a :: rest -> l ++ [x] = a :: rest ++ [x].
Proof. intros ->. reflexivity. Qed.

Lemma sequence_numbers_wrap_around :
  valid Sim.wrapping /\ representable Sim.wrapping /\
  exists (s : @state unit) mid,
    reachable (W := Sim.null) Sim.wrapping tt s /\
    writes 0 (st_trace s) = (-2) :: mid ++ [-4].
Proof.
  split; [|split].
  { unfold valid; simpl; lia. }
  { unfold representable, GoInt.in_range, GoInt.min_int, GoInt.max_int; simpl; lia. }
  assert (exists s0, standing (W := Sim.null) Sim.wrapping tt 0 1 (AtBatch 1) [] s0) as [s0 H0].
  { eexists. split; [|split; [|split; [|split]]].
    - apply (run_reachable _ _ (Sim.start 1)). reflexivity.
    - reflexivity.
    - reflexivity.
    - reflexivity.
    - reflexivity. }
  (* second 1: the end of the batch wraps around, nothing is submitted *)
  apply standing_batch in H0 as [s1 H1]; [|simpl; lia].
  change (GoInt.mul 1 (lineProtocolsCount Sim.wrapping)) with 9223372036854775807 in H1.
  change (GoInt.add 9223372036854775807 (lineProtocolsCount Sim.wrapping)) with (-2) in H1.
  apply standing_next in H1 as [s2 H2]; [|lia].
  change (GoInt.incr 1) with 2 in H2.
  (* second 2: the start of the batch wraps around *)
  apply standing_batch in H2 as [s3 H3]; [|simpl; lia].
  change (GoInt.mul 2 (lineProtocolsCount Sim.wrapping)) with (-2) in H3.
  change (GoInt.add (-2) (lineProtocolsCount Sim.wrapping)) with 9223372036854775805 in H3.
  apply standing_batch_run in H3 as [s4 H4];
    [|lia|unfold GoInt.max_int; lia|unfold GoInt.min_int; lia].
  rewrite app_nil_l in H4.
  remember (zrange (-2) 9223372036854775805) as L eqn:HL.
  apply standing_next in H4 as [s5 H5]; [|lia].
  change (GoInt.incr 2) with 3 in H5.
  (* second 3: nothing again *)
  apply standing_batch in H5 as [s6 H6]; [|simpl; lia].
  change (GoInt.mul 3 (lineProtocolsCount Sim.wrapping)) with 9223372036854775805 in H6.
  change (GoInt.add 9223372036854775805 (lineProtocolsCount Sim.wrapping)) with (-4) in H6.
  apply standing_next in H6 as [s7 H7]; [|lia].
  change (GoInt.incr 3) with 4 in H7.
  (* second 4 starts below the numbers of second 2 *)
  apply standing_batch in H7 as [s8 H8]; [|simpl; lia].
  change (GoInt.mul 4 (lineProtocolsCount Sim.wrapping)) with (-4) in H8.
  change (GoInt.add (-4) (lineProtocolsCount Sim.wrapping)) with 9223372036854775803 in H8.
  apply standing_tick in H8 as [s9 H9]; [|lia].
  destruct H9 as (Hr & _ & _ & _ & Hws).
  exists s9, (zrange (-2 + 1) 9223372036854775805).
  split; [exact Hr|].
  rewrite Hws. apply snoc_shape. rewrite HL. apply zrange_cons. lia.
Qed.

(** *** The adapter of the 1.x line *)

Section AdapterV1.

Context {C V : Type} {L : V1.Client C V}.

(** One call of the library, whose error is dropped, and nothing printed. *)
Lemma v1_write_once id name j (p : C) :
  V1.WriterV1_Write id name j p =
    (fst (V1.influx_Write
            {| V1.Database := "iot_writes";
               V1.Points := [ {| pt_name := name; pt_tags := [("id", Sprint_int id)];
                                 pt_fields := [("temperature", Sprint_int (V1.UnixNano p))];
                                 pt_time := j |} ] |} p), []).
Proof.
  unfold V1.WriterV1_Write, V1.AddPoint. simpl.
  destruct (V1.influx_Write _ p) as [p' [err|]]; reflexivity.
Qed.


End AdapterV1.





(** [C9]: with the adapter of the 1.x line, whenever the query fails or its
    response carries an error, [Count] returns [(0, nil)], which is what it
    returns for a count of zero; [main], standing at the call, does not
    panic and goes on to report an observed count of zero. *)
Theorem v1_count_hides_query_failure {C V : Type} {L : V1.Client C V} (cfg : Config)
    (s : @state C) (p' : C) (response : option (V1.Response V)) (err : option error) :
  V1.influx_Query
    (V1.NewQuery ("SELECT count(*) FROM " +:+ measurementName cfg) "iot_writes" "")
    (st_backend s) = (p', (response, err)) ->
  (err <> None \/ exists r e, response = Some r /\ V1.Response_Error r = Some e) ->
  V1.WriterV1_Count (measurementName cfg) (st_backend s) = (p', Returns (0, None)) /\
  (st_status s = Running -> st_main s = MCount ->
   exists s', step (W := V1.WriterV1) cfg TMain s = Some s' /\
     st_status s' = Running /\ st_main s' = MReport 0 /\
     st_trace s' = st_trace s ++ [ECount (measurementName cfg) (Returns (0, None))]).
Proof.
  intros Hq Hfail.
  assert (E : V1.WriterV1_Count (measurementName cfg) (st_backend s) = (p', Returns (0, None))).
  { unfold V1.WriterV1_Count. rewrite Hq.
    destruct err as [e|]; [reflexivity|].
    destruct Hfail as [Hne|(r & e & -> & Hr)]; [congruence|].
    rewrite Hr. reflexivity. }
  split; [exact E|].
  intros Hst Hm. unfold step, main. rewrite Hst, Hm.
  change (Count (measurementName cfg) (st_backend s))
    with (V1.WriterV1_Count (measurementName cfg) (st_backend s)).
  rewrite E. eexists. split; [reflexivity|]. simpl. auto.
Qed.

Lemma v1_count_hides_query_failure_witness :
  exists s : @state Sim.server1,
    exec (W := V1.WriterV1) Sim.small1
      (Sim.start 2 ++ Sim.runs (TWorker 0) 8 ++ Sim.runs (TWorker 1) 8 ++ [TMain])
      (init Sim.server1_unreachable) = Some s /\
    V1.WriterV1_Count "sensor_0" (st_backend s) = (Sim.server1_unreachable, Returns (0, None)) /\
    (st_status s = Running -> st_main s = MCount ->
     exists s', step (W := V1.WriterV1) Sim.small1 TMain s = Some s' /\
       st_status s' = Running /\ st_main s' = MReport 0 /\
       st_trace s' = st_trace s ++ [ECount "sensor_0" (Returns (0, None))]).
Proof.
  eexists. split; [vm_compute; reflexivity|].
  apply (v1_count_hides_query_failure Sim.small1 _ Sim.server1_unreachable None
           (Some "connection refused")).
  - reflexivity.
  - left. discriminate.
Defined.

(** [C10]: with the adapter of the 1.x line, when the query succeeds and the
    response carries no error but has no series (or no result at all),
    [Count] panics on the index, no count is returned, not even zero;
    [main], standing at the call, panics with it, and nothing moves any
    more: no result is reported and [Close] is not called. *)
Theorem v1_count_panics_on_empty_result {C V : Type} {L : V1.Client C V} (cfg : Config)
    (s : @state C) (p' : C) (r : V1.Response V) :
  V1.influx_Query
    (V1.NewQuery ("SELECT count(*) FROM " +:+ measurementName cfg) "iot_writes" "")
    (st_backend s) = (p', (Some r, None)) ->
  V1.Response_Error r = None ->
  empty_result_set r ->
  V1.WriterV1_Count (measurementName cfg) (st_backend s) = (p', Panics index_out_of_range) /\
  (st_status s = Running -> st_main s = MCount ->
   exists s', step (W := V1.WriterV1) cfg TMain s = Some s' /\
     st_status s' = Panicked index_out_of_range /\
     st_trace s' = st_trace s ++ [ECount (measurementName cfg) (Panics index_out_of_range)] /\
     forall t, step (W := V1.WriterV1) cfg t s' = None).
Proof.
  intros Hq Herr Hempty.
  assert (E : V1.WriterV1_Count (measurementName cfg) (st_backend s)
              = (p', Panics index_out_of_range)).
  { unfold V1.WriterV1_Count. rewrite Hq, Herr. unfold empty_result_set in Hempty.
    destruct (V1.Results r) as [|x rest]; [reflexivity|]. simpl.
    rewrite Hempty. reflexivity. }
  split; [exact E|].
  intros Hst Hm. unfold step at 1. unfold main. rewrite Hst, Hm.
  change (Count (measurementName cfg) (st_backend s))
    with (V1.WriterV1_Count (measurementName cfg) (st_backend s)).
  rewrite E. eexists. split; [reflexivity|]. simpl.
  repeat split.
Qed.

Lemma v1_count_panics_on_empty_result_witness :
  exists s : @state Sim.server1,
    exec (W := V1.WriterV1) Sim.small1
      (Sim.start 2 ++ Sim.runs (TWorker 0) 8 ++ Sim.runs (TWorker 1) 8 ++ [TMain])
      (init Sim.server1_refusing) = Some s /\
    V1.WriterV1_Count "sensor_0" (st_backend s)
      = (Sim.server1_refusing, Panics index_out_of_range) /\
    (st_status s = Running -> st_main s = MCount ->
     exists s', step (W := V1.WriterV1) Sim.small1 TMain s = Some s' /\
       st_status s' = Panicked index_out_of_range /\
       st_trace s' = st_trace s ++ [ECount "sensor_0" (Panics index_out_of_range)] /\
       forall t, step (W := V1.WriterV1) Sim.small1 t s' = None).
Proof.
  eexists. split; [vm_compute; reflexivity|].
  apply (v1_count_panics_on_empty_result Sim.small1 _ Sim.server1_refusing
           {| V1.Results := [ {| V1.Series := []; V1.ResultErr := "" |} ]; V1.Err := "" |}).
  - reflexivity.
  - reflexivity.
  - reflexivity.
Defined.

(** * Further properties of the harness and of the adapters *)

(** ** After the barrier *)


Lemma after_app p tr evs :
  after p (tr ++ evs) = if existsb p tr then after p tr ++ evs else after p evs.
Proof.
  induction tr as [|e tr IH]; simpl; [reflexivity|].
  destruct (p e); simpl; auto.
Qed.

Lemma after_none p tr : none_of p tr -> after p tr = [].
Proof.
  induction tr as [|e tr IH]; intros H; simpl; [reflexivity|].
  rewrite (H e (or_introl eq_refl)). apply IH. intros x Hx. apply H. now right.
Qed.

Lemma after_suffix p pre e post :
  p e = true -> exists mid, after p (pre ++ e :: post) = mid ++ post.
Proof.
  intros He. induction pre as [|x pre [mid IH]]; simpl.
  - rewrite He. now exists [].
  - destruct (p x); [|eauto]. exists (pre ++ [e]). now rewrite <- app_assoc.
Qed.

Lemma doLoad_events g stop id name sec lpc pc pc' evs a :
  doLoad g stop id name sec lpc pc = Some (pc', evs, a) ->
  none_of is_backend_call evs /\ none_of is_signal evs /\
  forall e, In e evs -> is_worker_event e = true.
Proof.
  intros H. unfold doLoad in H. break_match H; inversion H; subst.
  all: repeat split; try (intros e He; simpl in He;
         repeat (destruct He as [<-|He]; [reflexivity|]); destruct He).
Qed.

Section Quiescence.

Context {B : Type} {W : Writer B}.
Variable cfg : Config.
Variable b : B.

Hypothesis Hcount : in_int32 (threadsCount cfg).

Lemma quiet_after_barrier (s : state) :
  reachable cfg b s ->
  (existsb is_backend_call (st_trace s) = true -> (5 <= phase (st_main s))%nat) /\
  none_of is_worker_event (after is_backend_call (st_trace s)).
Proof.
  induction 1 as [|t s s' Hr [IH1 IH2] Hs].
  - simpl. split; [discriminate|apply none_of_nil].
  - destruct t as [| |g0].
    3: {
      destruct (le_lt_dec 5 (phase (st_main s))) as [Hp|Hp].
      { rewrite (barrier_passed cfg b Hcount s Hr Hp) in Hs. discriminate. }
      destruct (worker_step_wg _ _ _ _ (wg_range _ _ _ Hr) Hs)
        as (w & pc & evs & a & Hw & Hd & _ & Hm & _).
      destruct (worker_step _ _ _ _ Hs) as (w1 & pc1 & evs1 & a1 & out & Hw1 & Hd1 & _ & Htr).
      destruct (doLoad_events _ _ _ _ _ _ _ _ _ _ Hd1) as (Hb & _).
      assert (Hold : existsb is_backend_call (st_trace s) = false).
      { destruct (existsb is_backend_call (st_trace s)); [|reflexivity].
        specialize (IH1 eq_refl). lia. }
      assert (Hnew : none_of is_backend_call (evs1 ++ map (ELog g0) out)).
      { apply none_of_app; [assumption|]. apply none_of_logs. reflexivity. }
      rewrite Htr, Hm, after_app, Hold, existsb_app, Hold, (existsb_none _ _ Hnew),
        (after_none _ _ Hnew).
      split; [discriminate|apply none_of_nil]. }
    all: step_cases Hs.
    all: rewrite <- ?app_assoc; simpl app.
    all: rewrite ?after_app, ?existsb_app; simpl.
    all: destruct (existsb is_backend_call (st_trace s)) eqn:E; simpl.
    all: repeat match goal with H : st_main _ = _ |- _ => rewrite H in *; simpl in * end.
    all: split; [intros; try discriminate; try lia; try (apply IH1; reflexivity)|].
    all: try (specialize (IH1 eq_refl); lia).
    all: none_of_tac.
Qed.

End Quiescence.

(** [X1].  When the number of workers asked for fits in the counter of the
    wait group (an [int32]), [main] is past [wg.Wait()] (line 101) only when
    exactly that many workers were started and every one of them has
    returned; the counter is zero, and no worker moves any more. *)
Theorem completion_barrier {B} {W : Writer B} (cfg : Config) (b : B) (s : state) :
  in_int32 (threadsCount cfg) ->
  reachable cfg b s ->
  (5 <= phase (st_main s))%nat ->
  Z.of_nat (length (st_workers s)) = threadsCount cfg /\
  wg s = 0 /\
  (forall g w, st_workers s !! g = Some w -> g_pc w = Returned) /\
  forall g, step cfg (TWorker g) s = None.
Proof.
  intros HT Hr Hp.
  destruct (spawn_state cfg b (in_int32_max_int _ HT) s Hr) as (_ & _ & _ & I4).
  destruct (wg_state cfg b HT s Hr) as (_ & I5 & I7).
  specialize (I4 ltac:(lia)). destruct (I5 ltac:(lia)) as [H0 Hwg]. specialize (I7 Hp).
  repeat split.
  - lia.
  - lia.
  - intros g w Hg. eapply returned_all; eauto.
  - now apply (barrier_passed cfg b HT).
Qed.

Lemma completion_barrier_witness :
  exists s : @state unit,
    exec (W := Sim.null) Sim.small1
      (Sim.start 2 ++ Sim.runs (TWorker 0) 8 ++ [TTimer] ++ Sim.runs (TWorker 1) 1 ++ [TMain])
      (init tt) = Some s /\
    st_main s = MCount /\
    Z.of_nat (length (st_workers s)) = 2 /\
    wg s = 0 /\
    (forall g w, st_workers s !! g = Some w -> g_pc w = Returned) /\
    forall g, step (W := Sim.null) Sim.small1 (TWorker g) s = None.
Proof.
  eexists. split; [vm_compute; reflexivity|]. split; [reflexivity|].
  apply (completion_barrier (W := Sim.null) Sim.small1 tt).
  - unfold in_int32. simpl. lia.
  - apply (run_reachable _ _
      (Sim.start 2 ++ Sim.runs (TWorker 0) 8 ++ [TTimer] ++ Sim.runs (TWorker 1) 1 ++ [TMain])).
    vm_compute; reflexivity.
  - simpl. lia.
Defined.

(** [X2].  When the number of workers asked for fits in the counter of the
    wait group, once [Count] or [Close] has been called no worker does
    anything any more: no look at the channel, no progress line, no
    submission comes later in the trace. *)
Theorem no_worker_event_after_backend_call {B} {W : Writer B} (cfg : Config) (b : B)
    (s : state) (pre post : list event) (e : event) :
  in_int32 (threadsCount cfg) ->
  reachable cfg b s ->
  st_trace s = pre ++ e :: post ->
  is_backend_call e = true ->
  none_of is_worker_event post.
Proof.
  intros HT Hr E He.
  destruct (quiet_after_barrier cfg b HT s Hr) as [_ H].
  rewrite E in H. destruct (after_suffix is_backend_call pre e post He) as [mid Hm].
  rewrite Hm in H. now apply none_of_app_inv in H.
Qed.

Lemma no_worker_event_after_backend_call_witness :
  exists s : @state unit,
    exec (W := Sim.null) Sim.small1
      (Sim.start 2 ++ Sim.runs (TWorker 0) 8 ++ Sim.runs (TWorker 1) 8 ++ [TMain; TMain; TMain; TMain])
      (init tt) = Some s /\
    st_status s = Exited /\
    none_of is_worker_event [EResults 4 0; ERate 0; EClose None].
Proof.
  eexists. split; [vm_compute; reflexivity|]. split; [reflexivity|].
  eapply (no_worker_event_after_backend_call (W := Sim.null) Sim.small1 tt _
           [EExpected 4; ESpawn 0 1; ESpawn 1 2; ETimer; EPoll 0 (BatchHead 1) false;
            EProgress 1 1; EPoll 0 (TickHead 2) false; EWrite 0 1 "sensor_0" 2;
            EPoll 0 (TickHead 3) false; EWrite 0 1 "sensor_0" 3;
            EPoll 1 (BatchHead 1) false; EPoll 1 (TickHead 2) false;
            EWrite 1 2 "sensor_0" 2; EPoll 1 (TickHead 3) false; EWrite 1 2 "sensor_0" 3]
           _ (ECount "sensor_0" (Returns (0, None)))).
  - unfold in_int32. simpl. lia.
  - apply (run_reachable _ _
      (Sim.start 2 ++ Sim.runs (TWorker 0) 8 ++ Sim.runs (TWorker 1) 8 ++ [TMain; TMain; TMain; TMain])).
    vm_compute; reflexivity.
  - vm_compute. reflexivity.
  - reflexivity.
Defined.

(** [X3].  When the number of workers asked for is below the greatest
    [int], the workers are numbered in the order in which they are started:
    the worker in slot [g] has the id [g + 1], which lies between 1 and the
    number of workers asked for; and when the deadline goroutine exists, all
    the workers asked for have been started, none if the number is not
    positive. *)
Theorem workers_numbered {B} {W : Writer B} (cfg : Config) (b : B) (s : state) :
  threadsCount cfg < GoInt.max_int ->
  reachable cfg b s ->
  (forall g w, st_workers s !! g = Some w ->
     g_id w = Z.of_nat g + 1 /\ 1 <= g_id w <= threadsCount cfg) /\
  (st_timer s <> NotStarted ->
     Z.of_nat (length (st_workers s)) = Z.max 0 (threadsCount cfg)).
Proof.
  intros HT Hr.
  destruct (spawn_state cfg b HT s Hr) as (I1 & _ & _ & I4).
  split.
  - intros g w Hg. pose proof (I1 _ _ Hg) as E.
    pose proof (workers_le cfg b HT s Hr) as Hle.
    apply lookup_lt_Some in Hg. lia.
  - intros Ht. apply I4.
    destruct (le_lt_dec 3 (phase (st_main s))) as [?|Hlt]; [assumption|].
    destruct Ht. apply (signal_state cfg b s Hr). lia.
Qed.

Lemma workers_numbered_witness :
  exists s : @state unit,
    exec (W := Sim.null) Sim.small1 (Sim.start 2) (init tt) = Some s /\
    st_workers s = [ {| g_id := 1; g_pc := AtBatch 1 |}; {| g_id := 2; g_pc := AtBatch 1 |} ] /\
    (forall g w, st_workers s !! g = Some w -> g_id w = Z.of_nat g + 1 /\ 1 <= g_id w <= 2) /\
    (st_timer s <> NotStarted -> Z.of_nat (length (st_workers s)) = Z.max 0 2).
Proof.
  eexists. split; [vm_compute; reflexivity|]. split; [reflexivity|].
  apply (workers_numbered (W := Sim.null) Sim.small1 tt).
  - unfold GoInt.max_int. simpl. lia.
  - apply (run_reachable _ _ (Sim.start 2)). vm_compute; reflexivity.
Defined.

(** [X4].  When the number of workers asked for fits in the counter of the
    wait group, the wait group counts the workers that have not returned:
    after [wg.Add] (line 87) the counter is the number of workers asked for
    minus the number of those that have returned, it is never negative, and
    the deferred [wg.Done()] of a worker never panics: every step of a
    worker leaves the process running. *)
Theorem wait_group_counts_running_workers {B} {W : Writer B} (cfg : Config) (b : B)
    (s : state) :
  in_int32 (threadsCount cfg) ->
  reachable cfg b s ->
  ((2 <= phase (st_main s))%nat -> wg s = threadsCount cfg - returned (st_workers s)) /\
  0 <= wg s /\
  forall g s', step cfg (TWorker g) s = Some s' -> st_status s' = Running.
Proof.
  intros HT Hr.
  destruct (spawn_state cfg b (in_int32_max_int _ HT) s Hr) as (_ & I2 & _).
  destruct (wg_state cfg b HT s Hr) as (_ & I5 & _).
  pose proof (workers_le cfg b (in_int32_max_int _ HT) s Hr) as Hle.
  pose proof (returned_le (st_workers s)) as Hrl.
  pose proof (wg_range cfg b s Hr) as Hwr.
  split; [intros Hp; now apply I5|]. split; [lia|].
  intros g s' Hs.
  destruct (worker_step_wg _ _ _ _ Hwr Hs)
    as (w & pc & evs & a & Hw & Hd & _ & _ & _ & _ & _ & Hwg).
  destruct Hwg as [(_ & _ & E)|[(_ & _ & _ & E)|(_ & Hlt & _)]]; try assumption.
  exfalso.
  destruct (doLoad_return _ _ _ _ _ _ _ _ _ _ Hd) as [Hpc _].
  assert (Hnr : has_returned w = false).
  { unfold has_returned. destruct (g_pc w); congruence. }
  pose proof (returned_lt _ _ _ Hw Hnr).
  destruct (le_lt_dec 2 (phase (st_main s))) as [Hp|Hp].
  - destruct (I5 Hp). lia.
  - rewrite (I2 ltac:(lia)) in Hw. discriminate.
Qed.

Lemma wait_group_counts_running_workers_witness :
  exists s : @state unit,
    exec (W := Sim.null) Sim.small1 (Sim.start 2 ++ Sim.runs (TWorker 1) 8) (init tt) = Some s /\
    wg s = 1 /\
    ((2 <= phase (st_main s))%nat -> wg s = 2 - returned (st_workers s)) /\
    0 <= wg s /\
    forall g s', step (W := Sim.null) Sim.small1 (TWorker g) s = Some s' -> st_status s' = Running.
Proof.
  eexists. split; [vm_compute; reflexivity|]. split; [reflexivity|].
  apply (wait_group_counts_running_workers (W := Sim.null) Sim.small1 tt).
  - unfold in_int32. simpl. lia.
  - apply (run_reachable _ _ (Sim.start 2 ++ Sim.runs (TWorker 1) 8)). vm_compute; reflexivity.
Defined.

(** ** One worker and the stop signal *)

Lemma view_app g tr1 tr2 : view g (tr1 ++ tr2) = view g tr1 ++ view g tr2.
Proof. apply List.filter_app. Qed.

Lemma view_logs g g' out : view g (map (ELog g') out) = [].
Proof. induction out; auto. Qed.

Lemma view_nil g tr : wtrace g tr = [] -> signals tr = 0%nat -> view g tr = [].
Proof.
  unfold wtrace, signals, view. induction tr as [|e tr IH]; simpl; [reflexivity|].
  destruct (of_worker g e); simpl; [discriminate|].
  destruct (is_signal e); simpl; [discriminate|]. auto.
Qed.

Lemma view_own g stop id name sec lpc pc pc' evs a :
  doLoad g stop id name sec lpc pc = Some (pc', evs, a) -> view g evs = wtrace g evs.
Proof.
  intros H. unfold doLoad in H. break_match H; inversion H; subst; simpl;
    rewrite ?Nat.eqb_refl; reflexivity.
Qed.

Lemma view_other g stop id name sec lpc pc pc' evs a g' :
  doLoad g stop id name sec lpc pc = Some (pc', evs, a) -> g' <> g -> view g' evs = [].
Proof.
  intros H Hne. unfold doLoad in H. break_match H; inversion H; subst; simpl;
    rewrite ?(proj2 (Nat.eqb_neq g g')) by congruence; reflexivity.
Qed.

Section Signal.

Context {B : Type} {W : Writer B}.
Variable cfg : Config.
Variable b : B.

(** As [worker_invariant], for properties that depend on the stop channel
    and on the place of the signal among the events of the worker. *)
Lemma worker_invariant_chan (P : chan -> nat -> Z -> wpc -> list event -> Prop) :
  (forall g id, P Open g id (AtBatch 1) []) ->
  (forall g id pc l, P Open g id pc l -> P Closed g id pc (l ++ [ESignal])) ->
  (forall c g id pc l pc' evs a,
      P c g id pc l ->
      doLoad g c id (measurementName cfg) (secondsCount cfg) (lineProtocolsCount cfg) pc
        = Some (pc', evs, a) ->
      P c g id pc' (l ++ wtrace g evs)) ->
  forall s : state, reachable cfg b s ->
    (forall g w, st_workers s !! g = Some w ->
       P (stopExecution s) g (g_id w) (g_pc w) (view g (st_trace s))) /\
    (forall g, st_workers s !! g = None -> wtrace g (st_trace s) = []).
Proof.
  intros Hinit Hsig Hstep. induction 1 as [|t s s' Hr [IH1 IH2] Hs].
  - split; [intros g w Hg; discriminate|reflexivity].
  - pose proof (signal_state cfg b s Hr) as [Hns Hsg].
    destruct t as [| |g0].
    3: {
      destruct (worker_step _ _ _ _ Hs) as (w0 & pc & evs & a & out & Hw0 & Hd & Hws & Htr).
      destruct (worker_step_wg _ _ _ _ (wg_range _ _ _ Hr) Hs)
        as (_ & _ & _ & _ & _ & _ & _ & _ & _ & Hc & _).
      rewrite Hws, Htr, Hc.
      assert (Hlt : (g0 < length (st_workers s))%nat) by (eapply lookup_lt_Some; eauto).
      split.
      - intros g w Hg. rewrite !view_app, view_logs, app_nil_r.
        destruct (Nat.eq_dec g0 g) as [->|Hne].
        + rewrite list_lookup_insert_eq in Hg by assumption. inversion Hg; subst; simpl.
          rewrite (view_own _ _ _ _ _ _ _ _ _ _ Hd). eapply Hstep; eauto.
        + rewrite list_lookup_insert_ne in Hg by assumption.
          rewrite (view_other _ _ _ _ _ _ _ _ _ _ g Hd) by congruence.
          rewrite app_nil_r. auto.
      - intros g Hg. rewrite !wtrace_app, wtrace_logs, app_nil_r.
        apply lookup_ge_None in Hg. rewrite length_insert in Hg.
        rewrite (doLoad_own _ _ _ _ _ _ _ _ _ _ g Hd) by lia.
        rewrite app_nil_r. apply IH2. apply lookup_ge_None. lia.
    }
    2: {
      step_cases Hs.
      - split; [|intros g Hg; rewrite wtrace_app, app_nil_r; auto].
        intros g w Hg. rewrite view_app. simpl.
        destruct (stopExecution s) eqn:Ec; simpl in *; [|discriminate].
        inversion Heqo; subst. apply Hsig. auto.
      - split; auto.
    }
    step_cases Hs.
    all: rewrite <- ?app_assoc; simpl app.
    all: split; [|intros g Hg; rewrite ?wtrace_app, ?app_nil_r; simpl;
                  try (apply IH2; assumption)].
    all: try (intros g w Hg; rewrite ?view_app, ?app_nil_r; simpl; rewrite ?app_nil_r;
              now apply IH1).
    all: repeat match goal with H : st_main _ = _ |- _ => rewrite H in *; simpl in * end.
    + intros g w Hg. rewrite view_app. simpl. rewrite app_nil_r.
      destruct (decide (g < length (st_workers s))%nat) as [Hlt|Hge].
      * rewrite lookup_app_l in Hg by assumption. now apply IH1.
      * rewrite lookup_app_r in Hg by lia.
        destruct (g - length (st_workers s))%nat eqn:E; simpl in Hg; [|discriminate].
        inversion Hg; subst; simpl.
        specialize (Hns ltac:(lia)).
        destruct Hsg as [(Ho & Hz & _)|(_ & _ & Hf)]; [|congruence].
        rewrite Ho, view_nil; auto. apply IH2, lookup_ge_None. lia.
    + apply IH2. apply lookup_ge_None in Hg. rewrite length_app in Hg.
      apply lookup_ge_None. lia.
Qed.

End Signal.

Lemma after_split p tr : exists pre, tr = pre ++ after p tr.
Proof.
  induction tr as [|e tr [pre IH]]; simpl.
  - now exists [].
  - destruct (p e).
    + now exists [e].
    + exists (e :: pre). simpl. now rewrite <- IH.
Qed.

Lemma after_filter (p q : event -> bool) tr :
  (forall e, p e = true -> q e = true) ->
  List.filter q (after p tr) = after p (List.filter q tr).
Proof.
  intros H. induction tr as [|e tr IH]; simpl; [reflexivity|].
  destruct (p e) eqn:Ep.
  - rewrite (H _ Ep). simpl. now rewrite Ep.
  - destruct (q e); simpl; rewrite ?Ep; auto.
Qed.

Lemma wtrace_view g tr : wtrace g (view g tr) = wtrace g tr.
Proof.
  unfold wtrace, view. induction tr as [|e tr IH]; simpl; [reflexivity|].
  destruct (of_worker g e) eqn:E; simpl; rewrite ?E; simpl.
  - now rewrite IH.
  - destruct (is_signal e); simpl; rewrite ?E; auto.
Qed.

Lemma seqnos_wtrace_view g tr : seqnos (wtrace g (view g tr)) = seqnos (view g tr).
Proof.
  unfold wtrace, view. induction tr as [|e tr IH]; simpl; [reflexivity|].
  destruct (of_worker g e) eqn:E; simpl; rewrite ?E; simpl.
  - destruct (seqno e); now rewrite IH.
  - destruct (is_signal e) eqn:Es; simpl; rewrite ?E; auto.
    destruct e; try discriminate. simpl. auto.
Qed.

Lemma none_of_filter p q tr : none_of p tr -> none_of p (List.filter q tr).
Proof. intros H e He. apply filter_In in He as [He _]. auto. Qed.

Lemma draining_step c g id stop_name sec lpc pc l pc' evs a :
  draining c pc l ->
  doLoad g c id stop_name sec lpc pc = Some (pc', evs, a) ->
  draining c pc' (l ++ wtrace g evs).
Proof.
  intros Hdr Hd. destruct c; simpl in *.
  - rewrite existsb_app, Hdr. simpl.
    doLoad_cases Hd; rewrite ?Nat.eqb_refl; reflexivity.
  - destruct Hdr as (He & Hop & Hlen).
    rewrite existsb_app, He, after_app, He, seqnos_app, length_app. simpl.
    split; [reflexivity|].
    doLoad_cases Hd; rewrite ?Nat.eqb_refl, ?app_nil_r; simpl in *.
    all: try discriminate.
    all: split; [none_of_tac|lia].
Qed.

(** [X5].  After the stop channel is closed a worker submits at most one
    more tick (the one for which it had already looked at the channel), and
    no look of a worker at the channel after that moment finds it open. *)
Theorem overshoot_bounded {B} {W : Writer B} (cfg : Config) (b : B) (s : state) (g : nat) :
  reachable cfg b s ->
  (length (writes g (after is_signal (st_trace s))) <= 1)%nat /\
  none_of is_open_poll (wtrace g (after is_signal (st_trace s))).
Proof.
  intros Hr.
  destruct (worker_invariant_chan cfg b (fun c _ _ pc l => draining c pc l)) with (s := s)
    as [H1 H2].
  { intros. reflexivity. }
  { intros g0 id pc l H. simpl in *. rewrite existsb_app, H. simpl. split; [reflexivity|].
    rewrite after_app, H. simpl. split; [apply none_of_nil|]. destruct pc; simpl; lia. }
  { intros. eapply draining_step; eauto. }
  { exact Hr. }
  assert (E : wtrace g (after is_signal (st_trace s))
              = wtrace g (after is_signal (view g (st_trace s)))).
  { unfold view. rewrite <- after_filter.
    - symmetry. apply wtrace_view.
    - intros e He. rewrite He. apply orb_true_r. }
  destruct (st_workers s !! g) as [w|] eqn:Hg.
  - specialize (H1 _ _ Hg). unfold writes. rewrite E.
    destruct (stopExecution s); simpl in H1.
    + rewrite (after_none is_signal (view g (st_trace s))).
      * simpl. split; [lia|apply none_of_nil].
      * intros e He. destruct (is_signal e) eqn:Es; [|reflexivity].
        assert (existsb is_signal (view g (st_trace s)) = true)
          by (apply existsb_exists; eauto). congruence.
    + destruct H1 as (_ & Hop & Hlen). split.
      * unfold view in *. rewrite <- after_filter in *
          by (intros e He; rewrite He; apply orb_true_r).
        fold (view g (after is_signal (st_trace s))) in *.
        rewrite seqnos_wtrace_view. lia.
      * now apply none_of_filter.
  - specialize (H2 _ Hg). destruct (after_split is_signal (st_trace s)) as [pre Ep].
    rewrite Ep, wtrace_app in H2. apply app_eq_nil in H2 as [_ H2].
    unfold writes. rewrite H2. simpl. split; [lia|apply none_of_nil].
Qed.

Lemma overshoot_bounded_witness :
  exists s : @state unit,
    exec (W := Sim.null) Sim.scenarioA
      (Sim.start 1 ++ Sim.runs (TWorker 0) 4 ++ [TTimer] ++ Sim.runs (TWorker 0) 2)
      (init tt) = Some s /\
    writes 0 (after is_signal (st_trace s)) = [4] /\
    (length (writes 0 (after is_signal (st_trace s))) <= 1)%nat /\
    none_of is_open_poll (wtrace 0 (after is_signal (st_trace s))).
Proof.
  eexists. split; [vm_compute; reflexivity|]. split; [reflexivity|].
  apply (overshoot_bounded (W := Sim.null) Sim.scenarioA tt).
  apply (run_reachable _ _
    (Sim.start 1 ++ Sim.runs (TWorker 0) 4 ++ [TTimer] ++ Sim.runs (TWorker 0) 2)).
  vm_compute; reflexivity.
Defined.

(** ** The workers drain in a bounded number of steps *)

Lemma drain_step {B} {W : Writer B} cfg g (s s' : state) w :
  step cfg (TWorker g) s = Some s' -> stopExecution s = Closed ->
  st_workers s !! g = Some w ->
  exists w', st_workers s' !! g = Some w' /\
             (drain_rank (g_pc w') < drain_rank (g_pc w))%nat.
Proof.
  intros Hs Hc Hw.
  destruct (worker_step _ _ _ _ Hs) as (w0 & pc & evs & a & out & Hw0 & Hd & Hws & _).
  rewrite Hw in Hw0. inversion Hw0; subst w0. rewrite Hc in Hd.
  assert (Hlt : (g < length (st_workers s))%nat) by (eapply lookup_lt_Some; eauto).
  exists {| g_id := g_id w; g_pc := pc |}. split.
  - rewrite Hws. now apply list_lookup_insert_eq.
  - simpl. unfold doLoad in Hd. break_match Hd; inversion Hd; subst; simpl; try lia;
      discriminate.
Qed.

Lemma other_step_frame {B} {W : Writer B} cfg t g (s s' : state) w :
  step cfg t s = Some s' -> is_step_of g t = false ->
  st_workers s !! g = Some w -> st_workers s' !! g = Some w.
Proof.
  intros Hs Ht Hw. destruct t as [| |g'].
  - destruct (other_step _ _ _ _ Hs ltac:(discriminate)) as [_ [E|[i E]]]; rewrite E; auto.
    apply lookup_app_l_Some. assumption.
  - destruct (deadline_frame _ _ _ Hs) as (_ & -> & _). assumption.
  - destruct (worker_step _ _ _ _ Hs) as (w0 & pc & evs & a & out & _ & _ & Hws & _).
    rewrite Hws. rewrite list_lookup_insert_ne; auto.
    simpl in Ht. apply Nat.eqb_neq in Ht. assumption.
Qed.

(** A step of a worker leaves the process running, unless the worker has
    returned. *)
Lemma worker_step_status {B} {W : Writer B} cfg g (s s' : state) :
  step cfg (TWorker g) s = Some s' ->
  st_status s' = Running \/
  exists w', st_workers s' !! g = Some w' /\ g_pc w' = Returned.
Proof.
  intros Hs. pose proof (step_running _ _ _ _ Hs) as Hrun.
  destruct (worker_step _ _ _ _ Hs) as (w0 & pc & evs & a & out & Hw0 & Hd & Hws & _).
  destruct (doLoad_return _ _ _ _ _ _ _ _ _ _ Hd) as [_ Hret].
  assert (Hlt : (g < length (st_workers s))%nat) by (eapply lookup_lt_Some; eauto).
  destruct a.
  - left. unfold step, worker in Hs. rewrite Hrun, Hw0, Hd in Hs.
    inversion Hs; subst. assumption.
  - left. unfold step, worker in Hs. rewrite Hrun, Hw0, Hd in Hs.
    destruct (Write _ _ _ _). inversion Hs; subst. assumption.
  - right. exists {| g_id := g_id w0; g_pc := pc |}. split.
    + rewrite Hws. now apply list_lookup_insert_eq.
    + simpl. now apply Hret.
Qed.

(** Left to itself with the channel closed, a worker returns. *)
Lemma drain_solo {B} {W : Writer B} cfg g n : forall (s : state) w,
  (drain_rank (g_pc w) <= n)%nat ->
  st_status s = Running -> stopExecution s = Closed -> st_workers s !! g = Some w ->
  exists k s', (k <= drain_rank (g_pc w))%nat /\
    exec cfg (repeat (TWorker g) k) s = Some s' /\
    exists w', st_workers s' !! g = Some w' /\ g_pc w' = Returned.
Proof.
  induction n as [|n IH]; intros s w Hn Hst Hc Hw.
  - exists 0%nat, s. split; [lia|]. split; [reflexivity|].
    exists w. split; [assumption|]. destruct (g_pc w); simpl in Hn; try lia. reflexivity.
  - destruct (wpc_eq_Returned (g_pc w)) as [E|Hne].
    { exists 0%nat, s. split; [lia|]. split; [reflexivity|]. eauto. }
    destruct (worker_enabled cfg s g w Hst Hw Hne) as [s1 Hs1].
    destruct (drain_step _ _ _ _ _ Hs1 Hc Hw) as (w1 & Hw1 & Hlt).
    pose proof (closed_stays cfg _ _ _ Hs1 Hc) as Hc1.
    destruct (worker_step_status _ _ _ _ Hs1) as [Hst1|(w' & Hw' & Hret)].
    + destruct (IH s1 w1 ltac:(lia) Hst1 Hc1 Hw1) as (k & s' & Hk & He & Hfin).
      exists (S k), s'. split; [lia|]. split; [|assumption].
      simpl. rewrite Hs1. exact He.
    + exists 1%nat, s1. split; [lia|]. split; [simpl; now rewrite Hs1|]. eauto.
Qed.

(** [X6].  Once the stop channel is closed, a worker standing anywhere in
    [doLoad] returns within four steps of its own, whatever the other
    goroutines do in between: every step of the worker brings it nearer to
    its return (the submission it may stand at, the test of the inner loop,
    and the return; or the end of the batch, the sleep and the return), the
    steps of the others leave it where it is, and as long as the process is
    running the worker, left to itself, takes the steps that remain and
    returns: it waits for nothing. *)
Theorem drain_bounded {B} {W : Writer B} (cfg : Config) (sched : list tid)
    (s s' : state) (g : nat) (w : goroutine) :
  exec cfg sched s = Some s' ->
  stopExecution s = Closed ->
  st_workers s !! g = Some w ->
  exists w', st_workers s' !! g = Some w' /\
    (length (List.filter (is_step_of g) sched) + drain_rank (g_pc w')
       <= drain_rank (g_pc w))%nat /\
    (drain_rank (g_pc w) <= 4)%nat /\
    (drain_rank (g_pc w') = 0%nat -> g_pc w' = Returned) /\
    (st_status s' = Running ->
       exists k s'', (k <= drain_rank (g_pc w'))%nat /\
         exec cfg (repeat (TWorker g) k) s' = Some s'' /\
         exists w'', st_workers s'' !! g = Some w'' /\ g_pc w'' = Returned).
Proof.
  intros He Hc Hw.
  assert (H : exists w', st_workers s' !! g = Some w' /\
            (length (List.filter (is_step_of g) sched) + drain_rank (g_pc w')
               <= drain_rank (g_pc w))%nat).
  { revert s w He Hc Hw. induction sched as [|t sched IH]; intros s w He Hc Hw; simpl in *.
    - inversion He; subst. exists w. split; [assumption|lia].
    - destruct (step cfg t s) as [sm|] eqn:Hs; [|discriminate].
      pose proof (closed_stays cfg _ _ _ Hs Hc) as Hc'.
      destruct (is_step_of g t) eqn:Ht; simpl.
      + destruct t as [| |g']; simpl in Ht; try discriminate.
        apply Nat.eqb_eq in Ht. subst g'.
        destruct (drain_step _ _ _ _ _ Hs Hc Hw) as (w1 & Hw1 & Hlt).
        destruct (IH _ _ He Hc' Hw1) as (w' & Hw' & Hle).
        exists w'. split; [assumption|lia].
      + pose proof (other_step_frame _ _ _ _ _ _ Hs Ht Hw) as Hw1.
        apply (IH _ _ He Hc' Hw1). }
  destruct H as (w' & Hw' & Hle).
  exists w'. split; [assumption|]. split; [assumption|].
  split; [destruct (g_pc w); simpl; lia|].
  split; [destruct (g_pc w'); simpl; intros; try lia; reflexivity|].
  intros Hst.
  apply (drain_solo cfg g (drain_rank (g_pc w')) s' w'); auto.
  eapply closed_stays_exec; eauto.
Qed.

Lemma drain_bounded_witness :
  exists s s' : @state unit,
    exec (W := Sim.null) Sim.scenarioA
      (Sim.start 1 ++ Sim.runs (TWorker 0) 2 ++ [TTimer]) (init tt) = Some s /\
    st_workers s !! 0%nat = Some {| g_id := 1; g_pc := AtWrite 1 3 6 |} /\
    exec (W := Sim.null) Sim.scenarioA [TWorker 0] s = Some s' /\
    st_status s' = Running /\
    exists w', st_workers s' !! 0%nat = Some w' /\
      (length (List.filter (is_step_of 0) [TWorker 0]) + drain_rank (g_pc w')
         <= drain_rank (AtWrite 1 3 6))%nat /\
      (drain_rank (AtWrite 1 3 6) <= 4)%nat /\
      (drain_rank (g_pc w') = 0%nat -> g_pc w' = Returned) /\
      (st_status s' = Running ->
         exists k s'', (k <= drain_rank (g_pc w'))%nat /\
           exec (W := Sim.null) Sim.scenarioA (repeat (TWorker 0) k) s' = Some s'' /\
           exists w'', st_workers s'' !! 0%nat = Some w'' /\ g_pc w'' = Returned).
Proof.
  let r := eval vm_compute in
    (exec (W := Sim.null) Sim.scenarioA
       (Sim.start 1 ++ Sim.runs (TWorker 0) 2 ++ [TTimer]) (init tt)) in
  match r with Some ?x => pose (s0 := x) end.
  let r := eval vm_compute in
    (exec (W := Sim.null) Sim.scenarioA [TWorker 0] s0) in
  match r with Some ?x => pose (s1 := x) end.
  exists s0, s1.
  split; [vm_compute; reflexivity|]. split; [reflexivity|].
  split; [vm_compute; reflexivity|]. split; [reflexivity|].
  apply (drain_bounded (W := Sim.null) Sim.scenarioA [TWorker 0] s0 s1 0
           {| g_id := 1; g_pc := AtWrite 1 3 6 |}).
  - vm_compute; reflexivity.
  - reflexivity.
  - reflexivity.
Defined.

(** ** Edges of [main] *)

Lemma filter_none p tr : none_of p tr -> List.filter p tr = [].
Proof.
  induction tr as [|e tr IH]; intros H; simpl; [reflexivity|].
  rewrite (H e (or_introl eq_refl)). apply IH. intros x Hx. apply H. now right.
Qed.

Section Edges.

Context {B : Type} {W : Writer B}.
Variable cfg : Config.
Variable b : B.

Lemma zero_duration (s : state) :
  secondsCount cfg = 0 -> skipCount cfg = false -> reachable cfg b s ->
  (phase (st_main s) <= 6)%nat /\ st_status s <> Exited /\ none_of is_close (st_trace s).
Proof.
  intros Hz Hk. induction 1 as [|t s s' Hr IH Hs].
  - simpl. repeat split; [lia|discriminate|apply none_of_nil].
  - destruct IH as (I1 & I2 & I3).
    step_cases Hs.
    all: repeat match goal with H : st_main _ = _ |- _ => rewrite H in *; simpl in * end.
    all: try (rewrite Hk in *).
    all: try (rewrite Hz in *; discriminate).
    all: try lia.
    all: repeat split; try lia; try discriminate; try assumption; try congruence;
         none_of_tac.
Qed.

Lemma close_outcome (s : state) r :
  reachable cfg b s -> In (EClose r) (st_trace s) -> st_status s = close_status r.
Proof.
  intros Hr. revert r. induction Hr as [|t s s' Hr IH Hs]; intros r Hin.
  - destruct Hin.
  - pose proof (step_running _ _ _ _ Hs) as Hrun.
    assert (Hold : ~ In (EClose r) (st_trace s)).
    { intros Hold. specialize (IH _ Hold). rewrite Hrun in IH. destruct r; discriminate. }
    step_cases Hs.
    all: rewrite ?in_app_iff in Hin; simpl in Hin.
    all: repeat (destruct Hin as [Hin|Hin]); try contradiction; try discriminate.
    all: try (apply in_map_iff in Hin as (? & ? & _); discriminate).
    all: inversion Hin; subst; reflexivity.
Qed.

Lemma calls_once (s : state) :
  reachable cfg b s ->
  (length (List.filter is_count (st_trace s)) <= 1)%nat /\
  (length (List.filter is_close (st_trace s)) <= 1)%nat.
Proof.
  induction 1 as [|t s s' Hr [IH1 IH2] Hs].
  - simpl. lia.
  - pose proof (step_running _ _ _ _ Hs) as Hrun.
    assert (Hcl : List.filter is_close (st_trace s) = []).
    { apply filter_none. intros e He. destruct e; try reflexivity.
      pose proof (close_outcome s _ Hr He) as E. rewrite Hrun in E. destruct r; discriminate. }
    destruct (before_count cfg b s Hr) as (B1 & B2 & _).
    step_cases Hs.
    all: rewrite ?List.filter_app, ?length_app; simpl.
    all: try (rewrite Hcl; simpl).
    all: try (rewrite (filter_none is_count (st_trace s)) by (apply B2; auto); simpl).
    all: try (replace (List.filter is_close (map (ELog g) l)) with (@nil event)
                by (clear; induction l; auto));
         try (replace (List.filter is_count (map (ELog g) l)) with (@nil event)
                by (clear; induction l; auto)); simpl.
    all: lia.
Qed.

End Edges.

(** [X7].  With [-secondsCount 0] and counting not skipped no run ends
    normally: [main] never gets past the report, where the integer division
    by [secondsCount] (line 117) panics once [Count] has succeeded, and
    [Close] is never called. *)
Theorem zero_duration_never_exits {B} {W : Writer B} (cfg : Config) (b : B) (s : state) :
  secondsCount cfg = 0 -> skipCount cfg = false -> reachable cfg b s ->
  st_status s <> Exited /\ none_of is_close (st_trace s) /\
  forall total, st_main s = MReport total -> st_status s = Running ->
    step cfg TMain s
      = Some (finish (Panicked divide_by_zero) (emit [EResults (expected cfg) total] s)).
Proof.
  intros Hz Hk Hr. destruct (zero_duration cfg b s Hz Hk Hr) as (_ & H2 & H3).
  repeat split; auto.
  intros total Hm Hst. unfold step, main. rewrite Hst, Hm, Hz. reflexivity.
Qed.

Lemma zero_duration_never_exits_witness :
  exists s : @state unit,
    exec (W := Sim.null) (Sim.config "CLIENT_GO_V2" 1 0 5 false)
      (Sim.start 1 ++ [TWorker 0; TMain; TMain; TMain]) (init tt) = Some s /\
    st_status s = Panicked divide_by_zero /\
    st_status s <> Exited /\ none_of is_close (st_trace s) /\
    forall total, st_main s = MReport total -> st_status s = Running ->
      step (W := Sim.null) (Sim.config "CLIENT_GO_V2" 1 0 5 false) TMain s
        = Some (finish (Panicked divide_by_zero)
                  (emit [EResults (expected (Sim.config "CLIENT_GO_V2" 1 0 5 false)) total] s)).
Proof.
  eexists. split; [vm_compute; reflexivity|]. split; [reflexivity|].
  apply (zero_duration_never_exits (W := Sim.null) (Sim.config "CLIENT_GO_V2" 1 0 5 false) tt).
  - reflexivity.
  - reflexivity.
  - apply (run_reachable _ _ (Sim.start 1 ++ [TWorker 0; TMain; TMain; TMain])).
    vm_compute; reflexivity.
Defined.

(** [X8].  In every run [Count] is called at most once and [Close] at most
    once; and when [Close] has been called the process is over: it has
    exited if [Close] returned [nil] and has panicked with the error that
    [Close] returned otherwise (lines 122-124). *)
Theorem backend_called_once {B} {W : Writer B} (cfg : Config) (b : B) (s : state) :
  reachable cfg b s ->
  (length (List.filter is_count (st_trace s)) <= 1)%nat /\
  (length (List.filter is_close (st_trace s)) <= 1)%nat /\
  forall r, In (EClose r) (st_trace s) ->
    st_status s = close_status r /\ forall t, step cfg t s = None.
Proof.
  intros Hr. destruct (calls_once cfg b s Hr) as [H1 H2].
  repeat split; auto.
  - now apply (close_outcome cfg b).
  - intros t. apply stopped_process. rewrite (close_outcome cfg b s r Hr H).
    destruct r; discriminate.
Qed.

Lemma backend_called_once_witness :
  exists s : @state unit,
    exec (W := Sim.null) Sim.small1
      (Sim.start 2 ++ Sim.runs (TWorker 0) 8 ++ Sim.runs (TWorker 1) 8 ++ [TMain; TMain; TMain; TMain])
      (init tt) = Some s /\
    List.filter is_close (st_trace s) = [EClose None] /\
    (length (List.filter is_count (st_trace s)) <= 1)%nat /\
    (length (List.filter is_close (st_trace s)) <= 1)%nat /\
    forall r, In (EClose r) (st_trace s) ->
      st_status s = close_status r /\ forall t, step (W := Sim.null) Sim.small1 t s = None.
Proof.
  eexists. split; [vm_compute; reflexivity|]. split; [reflexivity|].
  apply (backend_called_once (W := Sim.null) Sim.small1 tt).
  apply (run_reachable _ _
    (Sim.start 2 ++ Sim.runs (TWorker 0) 8 ++ Sim.runs (TWorker 1) 8 ++ [TMain; TMain; TMain; TMain])).
  vm_compute; reflexivity.
Defined.

(** ** The adapter of the 2.x line *)

Section AdapterV2.

Context {C : Type} {L : V2.Client C}.

Lemma v2_close_nil cfg (p : C) (s : state) r :
  reachable (W := V2.WriterV2) cfg p s -> In (EClose r) (st_trace s) -> r = None.
Proof.
  intros Hr. revert r. induction Hr as [|t s s' Hr IH Hs]; intros r Hin.
  - destruct Hin.
  - step_cases Hs.
    all: rewrite ?in_app_iff in Hin; simpl in Hin.
    all: repeat (destruct Hin as [Hin|Hin]); try contradiction; try discriminate; eauto.
    all: try (apply in_map_iff in Hin as (? & ? & _); discriminate).
    all: inversion Hin; subst; clear Hin.
    all: unfold V2.WriterV2_Close in *; congruence.
Qed.

End AdapterV2.

(** [X9].  With the adapter of the 2.x line, a count query that succeeds
    but has no row does not count as zero: [Count] returns the error of the
    result, or the error "unknown error" when the result has none (lines
    178-183), and [main], standing at the call, panics with it. *)
Theorem v2_count_without_row_is_an_error {C : Type} {L : V2.Client C} (cfg : Config)
    (s : @state C) (p' : C) (r : V2.QueryTableResult) :
  V2.Query (V2.count_query (measurementName cfg)) (st_backend s) = (p', (r, None)) ->
  V2.Next r = false ->
  V2.WriterV2_Count (measurementName cfg) (st_backend s)
    = (p', Returns (0, Some (no_row_error r))) /\
  (st_status s = Running -> st_main s = MCount ->
   exists s', step (W := V2.WriterV2) cfg TMain s = Some s' /\
     st_status s' = Panicked (PError (no_row_error r)) /\
     st_trace s' = st_trace s ++
       [ECount (measurementName cfg) (Returns (0, Some (no_row_error r)))]).
Proof.
  intros Hq Hn.
  assert (E : V2.WriterV2_Count (measurementName cfg) (st_backend s)
              = (p', Returns (0, Some (no_row_error r)))).
  { unfold V2.WriterV2_Count, no_row_error. rewrite Hq, Hn. simpl.
    destruct (V2.Err r); reflexivity. }
  split; [exact E|].
  intros Hst Hm. unfold step, main. rewrite Hst, Hm.
  change (Count (measurementName cfg) (st_backend s))
    with (V2.WriterV2_Count (measurementName cfg) (st_backend s)).
  rewrite E. eexists. split; [reflexivity|]. simpl. auto.
Qed.

Lemma v2_count_without_row_is_an_error_witness :
  exists s : @state Sim.server2,
    exec (W := V2.WriterV2) Sim.tickless (Sim.start 1 ++ Sim.runs (TWorker 0) 4)
      (init Sim.server2_up) = Some s /\
    V2.WriterV2_Count "sensor_0" (st_backend s)
      = (Sim.server2_up, Returns (0, Some "unknown error")) /\
    (st_status s = Running -> st_main s = MCount ->
     exists s', step (W := V2.WriterV2) Sim.tickless TMain s = Some s' /\
       st_status s' = Panicked (PError "unknown error") /\
       st_trace s' = st_trace s ++ [ECount "sensor_0" (Returns (0, Some "unknown error"))]).
Proof.
  eexists. split; [vm_compute; reflexivity|].
  apply (v2_count_without_row_is_an_error Sim.tickless _ Sim.server2_up
           {| V2.Next := false; V2.Err := None; V2.temperature := V2.DOther |}).
  - reflexivity.
  - reflexivity.
Defined.

(** [X10].  With the adapter of the 2.x line [Close] never fails (line
    191): in every run in which [Close] has been called it returned [nil]
    and the process has exited normally. *)
Theorem v2_close_always_exits {C : Type} {L : V2.Client C} (cfg : Config) (p : C)
    (s : @state C) (r : option error) :
  reachable (W := V2.WriterV2) cfg p s ->
  In (EClose r) (st_trace s) ->
  r = None /\ st_status s = Exited.
Proof.
  intros Hr Hin. pose proof (v2_close_nil cfg p s r Hr Hin) as ->.
  split; [reflexivity|]. apply (close_outcome (W := V2.WriterV2) cfg p s None Hr Hin).
Qed.

Lemma v2_close_always_exits_witness :
  exists s : @state Sim.server2,
    exec (W := V2.WriterV2) Sim.small2
      (Sim.start 2 ++ Sim.runs (TWorker 0) 8 ++ Sim.runs (TWorker 1) 8 ++ [TMain; TMain; TMain; TMain])
      (init Sim.server2_up) = Some s /\
    In (ECount "sensor_0" (Returns (4, None))) (st_trace s) /\
    (@None error = None /\ st_status s = Exited).
Proof.
  eexists. split; [vm_compute; reflexivity|].
  split; [simpl; repeat (first [left; reflexivity | right])|].
  apply (v2_close_always_exits Sim.small2 Sim.server2_up).
  - apply (run_reachable _ _
      (Sim.start 2 ++ Sim.runs (TWorker 0) 8 ++ Sim.runs (TWorker 1) 8 ++ [TMain; TMain; TMain; TMain])).
    vm_compute; reflexivity.
  - simpl. repeat (first [left; reflexivity | right]).
Defined.

(** ** The point of a tick *)

Lemma to_int_not_nil z :
  Z.to_int z <> Decimal.Pos Decimal.Nil /\ Z.to_int z <> Decimal.Neg Decimal.Nil.
Proof.
  rewrite <- (DecimalZ.of_to z), DecimalZ.to_of.
  destruct (Z.to_int z) as [d|d]; simpl.
  - split; [|discriminate]. intros E. inversion E. now apply (unorm_nonnil d).
  - destruct (Decimal.nzhead d) eqn:En; split; try discriminate; congruence.
Qed.

Lemma Sprint_int_inj a a' : Sprint_int a = Sprint_int a' -> a = a'.
Proof.
  unfold Sprint_int. intros E. apply DecimalZ.to_int_inj.
  apply (f_equal NilZero.int_of_string) in E.
  destruct (to_int_not_nil a), (to_int_not_nil a').
  rewrite !NilZero.isi in E by assumption. congruence.
Qed.

(** [X11].  Both adapters hand to their library the same point for the same
    tick, and the point tells the tick: two points that agree on the tag and
    on the time come from the same worker id and the same sequence number,
    so that the points of two ticks never fall on one another in the
    backend. *)
Theorem point_identifies_tick :
  (forall C V (L : V1.Client C V) id name j (p : C),
      V1.WriterV1_Write id name j p =
        (fst (V1.influx_Write
                {| V1.Database := "iot_writes";
                   V1.Points := [tick_point name id j (V1.UnixNano p)] |} p), [])) /\
  (forall C (L : V2.Client C) id name j (p : C),
      V2.WriterV2_Write id name j p =
        (V2.WritePoint (tick_point name id j (V2.UnixNano p)) p, [])) /\
  (forall name id j now name' id' j' now',
      pt_tags (tick_point name id j now) = pt_tags (tick_point name' id' j' now') ->
      pt_time (tick_point name id j now) = pt_time (tick_point name' id' j' now') ->
      id = id' /\ j = j').
Proof.
  split; [|split].
  - intros. apply v1_write_once.
  - intros. reflexivity.
  - simpl. intros name id j now name' id' j' now' Et Ej. split; [|assumption].
    inversion Et. now apply Sprint_int_inj.
Qed.

Lemma point_identifies_tick_witness :
  pt_tags (tick_point "sensor" 7 300 1000) = pt_tags (tick_point "other" 7 300 2000) /\
  (7 = 7 /\ 300 = 300).
Proof.
  split; [reflexivity|].
  apply (proj2 (proj2 point_identifies_tick) "sensor" 7 300 1000 "other" 7 300 2000);
    reflexivity.
Defined.

(** ** The progress line *)





(** ** Accounting: what is submitted against what is expected *)

Lemma written_app tr1 tr2 : written (tr1 ++ tr2) = written tr1 + written tr2.
Proof. unfold written. rewrite List.filter_app, length_app. lia. Qed.

Lemma written_logs g out : written (map (ELog g) out) = 0.
Proof. unfold written. induction out; auto. Qed.

Lemma written_nonneg tr : 0 <= written tr.
Proof. unfold written. lia. Qed.

Lemma no_worker_events evs :
  (forall g, wtrace g evs = []) -> written evs = 0 /\ none_of is_closed_poll evs.
Proof.
  induction evs as [|e evs IH]; intros H.
  - split; [reflexivity|apply none_of_nil].
  - assert (He : forall g, of_worker g e = false).
    { intros g. specialize (H g). unfold wtrace in H. simpl in H.
      destruct (of_worker g e); [discriminate|reflexivity]. }
    assert (H' : forall g, wtrace g evs = []).
    { intros g. specialize (H g). unfold wtrace in *. simpl in H. now rewrite He in H. }
    destruct (IH H') as [IH1 IH2]. split.
    + unfold written in *. simpl. destruct e; simpl; auto.
      specialize (He g). simpl in He. rewrite Nat.eqb_refl in He. discriminate.
    + apply none_of_cons; [|assumption]. destruct e; simpl; auto.
      specialize (He g). simpl in He. rewrite Nat.eqb_refl in He. discriminate.
Qed.

Section Accounting.

Context {B : Type} {W : Writer B}.
Variable cfg : Config.
Variable b : B.

Let T := threadsCount cfg.
Let sec := secondsCount cfg.
Let lpc := lineProtocolsCount cfg.

Hypothesis Hvalid : valid cfg.
Hypothesis Hthreads : T < GoInt.max_int.
Hypothesis Hfit : (sec + 1) * lpc <= GoInt.max_int.

Lemma budget_step g c id pc ws pc' evs a :
  ordered sec lpc pc ws ->
  doLoad g c id (measurementName cfg) sec lpc pc = Some (pc', evs, a) ->
  budget sec lpc pc' + written evs <= budget sec lpc pc /\
  (none_of is_closed_poll evs -> budget sec lpc pc' + written evs = budget sec lpc pc).
Proof.
  destruct Hvalid as (_ & Hsec & Hlpc). fold sec lpc in Hsec, Hlpc.
  intros Ho Hd.
  doLoad_cases Hd; unfold written; simpl.
  all: unfold ordered in Ho.
  all: repeat match goal with H : _ /\ _ |- _ => destruct H end.
  all: repeat match goal with
         | H : (_ <=? _) = true |- _ => apply Z.leb_le in H
         | H : (_ <=? _) = false |- _ => apply Z.leb_gt in H
         | H : (_ <? _) = true |- _ => apply Z.ltb_lt in H
         | H : (_ <? _) = false |- _ => apply Z.ltb_ge in H
         end.
  all: unfold GoInt.mul, GoInt.add, GoInt.incr.
  all: try (assert (lpc <= i * lpc /\ i * lpc + lpc <= (sec + 1) * lpc) as [? ?] by nia).
  all: repeat match goal with
         | |- context [GoInt.wrap ?z] =>
             rewrite (wrap_small z)
               by (unfold GoInt.in_range, GoInt.min_int, GoInt.max_int in *; lia)
         end.
  all: split; [try nia|intros Hn; try nia].
  all: try (specialize (Hn _ (or_introl eq_refl)); discriminate).
Qed.

Lemma budget_bounds pc ws :
  ordered sec lpc pc ws -> 0 <= budget sec lpc pc <= sec * lpc.
Proof.
  destruct Hvalid as (_ & Hsec & Hlpc). fold sec lpc in Hsec, Hlpc.
  intros Ho. destruct pc; simpl in *.
  all: repeat match goal with H : _ /\ _ |- _ => destruct H end; subst; try nia.
Qed.

Lemma ordered_reachable (s : state) g w :
  reachable cfg b s -> st_workers s !! g = Some w ->
  ordered sec lpc (g_pc w) (writes g (st_trace s)).
Proof.
  destruct Hvalid as (_ & Hsec & Hlpc). fold sec lpc in Hsec, Hlpc.
  intros Hr Hg.
  assert (H : (forall g w, st_workers s !! g = Some w ->
                 ordered sec lpc (g_pc w) (seqnos (wtrace g (st_trace s)))) /\
              (forall g, st_workers s !! g = None -> wtrace g (st_trace s) = [])).
  { apply (worker_invariant cfg b (fun _ _ pc l => ordered sec lpc pc (seqnos l))).
    - intros. simpl. repeat split; try lia. rewrite zrange_nil by lia. reflexivity.
    - intros g1 id stop pc l pc' evs a Ho Hd.
      exact (ordered_step cfg Hlpc Hfit g1 id stop pc l pc' evs a Ho Hd).
    - exact Hr. }
  exact (proj1 H g w Hg).
Qed.

Lemma accounting (s : state) :
  reachable cfg b s ->
  written (st_trace s)
    + total (fun w => budget sec lpc (g_pc w)) (st_workers s)
    + (T - Z.of_nat (length (st_workers s))) * (sec * lpc) <= T * (sec * lpc) /\
  (none_of is_closed_poll (st_trace s) ->
   written (st_trace s)
     + total (fun w => budget sec lpc (g_pc w)) (st_workers s)
     + (T - Z.of_nat (length (st_workers s))) * (sec * lpc) = T * (sec * lpc)).
Proof.
  induction 1 as [|t s s' Hr [IH1 IH2] Hs].
  - simpl. split; [|intros _]; unfold written; simpl; lia.
  - destruct t as [| |g0].
    3: {
      destruct (worker_step _ _ _ _ Hs) as (w0 & pc & evs & a & out & Hw0 & Hd & Hws & Htr).
      pose proof (ordered_reachable s g0 w0 Hr Hw0) as Ho.
      destruct (budget_step _ _ _ _ _ _ _ _ Ho Hd) as [Hb1 Hb2].
      rewrite Hws, Htr, length_insert, (total_insert _ _ _ _ _ Hw0).
      rewrite !written_app, written_logs. simpl g_pc.
      split; [lia|].
      intros Hn. apply none_of_app_inv in Hn as [Hn1 Hn2].
      apply none_of_app_inv in Hn2 as [Hn2 _].
      specialize (IH2 Hn1). specialize (Hb2 Hn2). lia. }
    all: destruct (other_step _ _ _ _ Hs ltac:(discriminate)) as [(evs & Htr & Hevs) Hws].
    all: destruct (no_worker_events _ Hevs) as [Hw0 Hcp].
    all: rewrite Htr, written_app, Hw0.
    all: destruct Hws as [->|[i ->]];
         rewrite ?length_app, ?total_app; simpl total; simpl length.
    all: split; [try lia|intros Hn; apply none_of_app_inv in Hn as [Hn _];
                 specialize (IH2 Hn); try lia].
    all: nia.
Qed.

Lemma budgets_nonneg (s : state) :
  reachable cfg b s ->
  0 <= total (fun w => budget sec lpc (g_pc w)) (st_workers s).
Proof.
  intros Hr.
  pose proof (total_bounds (fun w => budget sec lpc (g_pc w)) (st_workers s) 0 (sec * lpc)) as H.
  assert (forall g w, st_workers s !! g = Some w -> 0 <= budget sec lpc (g_pc w) <= sec * lpc).
  { intros g w Hg. eapply budget_bounds, ordered_reachable; eauto. }
  specialize (H H0). lia.
Qed.

End Accounting.

(** [X13].  For a valid configuration with fewer workers than the greatest
    [int] and [(secondsCount + 1) * lineProtocolsCount] fitting in an [int],
    the workers together never make more than
    [threadsCount * secondsCount * lineProtocolsCount] submissions, in any
    run; when that product fits in an [int] this is the expected size that
    [main] prints. *)
Theorem submissions_bounded_by_expected {B} {W : Writer B} (cfg : Config) (b : B)
    (s : state) :
  valid cfg ->
  threadsCount cfg < GoInt.max_int ->
  (secondsCount cfg + 1) * lineProtocolsCount cfg <= GoInt.max_int ->
  reachable cfg b s ->
  written (st_trace s) <= threadsCount cfg * secondsCount cfg * lineProtocolsCount cfg /\
  (threadsCount cfg * secondsCount cfg * lineProtocolsCount cfg <= GoInt.max_int ->
   written (st_trace s) <= expected cfg).
Proof.
  intros Hv HT Hfit Hr.
  assert (H : written (st_trace s)
              <= threadsCount cfg * secondsCount cfg * lineProtocolsCount cfg).
  { destruct (accounting cfg b Hv Hfit s Hr) as [H1 _].
    pose proof (budgets_nonneg cfg b Hv Hfit s Hr) as H2.
    pose proof (workers_le cfg b HT s Hr) as H3.
    destruct Hv as (Ht & Hs & Hl).
    assert (0 <= (threadsCount cfg - Z.of_nat (length (st_workers s)))
                 * (secondsCount cfg * lineProtocolsCount cfg)) by nia.
    lia. }
  split; [exact H|].
  intros Hp. rewrite expected_exact; [exact H|].
  destruct Hv as (Ht & Hs & Hl). unfold GoInt.in_range, GoInt.min_int. split; [|assumption].
  assert (0 < threadsCount cfg * secondsCount cfg) by lia.
  assert (0 < threadsCount cfg * secondsCount cfg * lineProtocolsCount cfg) by lia.
  lia.
Qed.

Lemma submissions_bounded_by_expected_witness :
  exists s : @state unit,
    exec (W := Sim.null) Sim.small1
      (Sim.start 2 ++ Sim.runs (TWorker 0) 3 ++ [TTimer] ++ Sim.runs (TWorker 0) 1
         ++ Sim.runs (TWorker 1) 1 ++ [TMain])
      (init tt) = Some s /\
    written (st_trace s) = 1 /\
    written (st_trace s) <= 2 * 1 * 2 /\
    (2 * 1 * 2 <= GoInt.max_int -> written (st_trace s) <= expected Sim.small1).
Proof.
  eexists. split; [vm_compute; reflexivity|]. split; [reflexivity|].
  apply (submissions_bounded_by_expected (W := Sim.null) Sim.small1 tt).
  - unfold valid. simpl. lia.
  - unfold GoInt.max_int. simpl. lia.
  - unfold GoInt.max_int. simpl. lia.
  - apply (run_reachable _ _
      (Sim.start 2 ++ Sim.runs (TWorker 0) 3 ++ [TTimer] ++ Sim.runs (TWorker 0) 1
         ++ Sim.runs (TWorker 1) 1 ++ [TMain])).
    vm_compute; reflexivity.
Defined.

(** [X14].  For a valid configuration whose number of workers fits in the
    counter of the wait group (an [int32]), with
    [(secondsCount + 1) * lineProtocolsCount] fitting in an [int], a run in
    which no worker ever found the stop channel closed and [main] is past
    [wg.Wait()] has made exactly
    [threadsCount * secondsCount * lineProtocolsCount] submissions: every
    tick that is expected has been submitted, once. *)
Theorem undisturbed_run_submits_expected {B} {W : Writer B} (cfg : Config) (b : B)
    (s : state) :
  valid cfg ->
  in_int32 (threadsCount cfg) ->
  (secondsCount cfg + 1) * lineProtocolsCount cfg <= GoInt.max_int ->
  reachable cfg b s ->
  (5 <= phase (st_main s))%nat ->
  none_of is_closed_poll (st_trace s) ->
  written (st_trace s) = threadsCount cfg * secondsCount cfg * lineProtocolsCount cfg.
Proof.
  intros Hv HT Hfit Hr Hp Hn.
  destruct (accounting cfg b Hv Hfit s Hr) as [_ H]. specialize (H Hn).
  destruct (spawn_state cfg b (in_int32_max_int _ HT) s Hr) as (_ & _ & _ & I4).
  destruct (wg_state cfg b HT s Hr) as (_ & _ & I7).
  pose proof (I4 ltac:(lia)) as Hlen. specialize (I7 Hp).
  assert (Hall : forall g w, st_workers s !! g = Some w -> g_pc w = Returned)
    by (intros g w Hg; eapply returned_all; eauto).
  assert (Hz : total (fun w => budget (secondsCount cfg) (lineProtocolsCount cfg) (g_pc w))
                 (st_workers s) = 0).
  { pose proof (total_bounds
      (fun w => budget (secondsCount cfg) (lineProtocolsCount cfg) (g_pc w))
      (st_workers s) 0 0) as Hb.
    assert (forall g w, st_workers s !! g = Some w ->
              0 <= budget (secondsCount cfg) (lineProtocolsCount cfg) (g_pc w) <= 0).
    { intros g w Hg. rewrite (Hall _ _ Hg). simpl. lia. }
    specialize (Hb H0). lia. }
  destruct Hv as (Ht & _).
  rewrite Hz, Hlen in H. lia.
Qed.

Lemma undisturbed_run_submits_expected_witness :
  exists s : @state unit,
    exec (W := Sim.null) Sim.small1
      (Sim.start 2 ++ Sim.runs (TWorker 0) 7 ++ Sim.runs (TWorker 1) 7 ++ [TTimer]
         ++ [TWorker 0; TWorker 1; TMain])
      (init tt) = Some s /\
    In ESignal (st_trace s) /\
    written (st_trace s) = 2 * 1 * 2.
Proof.
  eexists. split; [vm_compute; reflexivity|].
  split; [simpl; repeat (first [left; reflexivity | right])|].
  apply (undisturbed_run_submits_expected (W := Sim.null) Sim.small1 tt).
  - unfold valid. simpl. lia.
  - unfold in_int32. simpl. lia.
  - unfold GoInt.max_int. simpl. lia.
  - apply (run_reachable _ _
      (Sim.start 2 ++ Sim.runs (TWorker 0) 7 ++ Sim.runs (TWorker 1) 7 ++ [TTimer]
         ++ [TWorker 0; TWorker 1; TMain])).
    vm_compute; reflexivity.
  - simpl. lia.
  - intros e He. simpl in He.
    repeat (destruct He as [<-|He]; [reflexivity|]). destruct He.
Defined.

(** ** The run and the backend *)

(** [X15].  Up to the call of [Count] or [Close] a run depends neither on
    the adapter nor on the backend: under the same schedule, any other
    writer on any other backend gives a run with the same goroutines at the
    same points, the same channel, the same counter and the same events,
    the lines printed by the adapters apart. *)
Theorem load_independent_of_backend {B1 B2 : Type} {W1 : Writer B1} {W2 : Writer B2}
    (cfg : Config) (b1 : B1) (b2 : B2) (sched : list tid) (s1 : @state B1) :
  exec (W := W1) cfg sched (init b1) = Some s1 ->
  none_of is_count (st_trace s1) -> none_of is_close (st_trace s1) ->
  exists s2 : @state B2,
    exec (W := W2) cfg sched (init b2) = Some s2 /\ control s1 = control s2.
Proof.
  intros He Hn1 Hn2.
  apply (exec_independent (W1 := W1) (W2 := W2) cfg sched (init b1) s1 (init b2));
    [reflexivity|assumption..].
Qed.

Lemma load_independent_of_backend_witness :
  exists s1 : @state Sim.server1,
    exec (W := V1.WriterV1) Sim.small1
      (Sim.start 2 ++ Sim.runs (TWorker 0) 8 ++ Sim.runs (TWorker 1) 8 ++ [TMain])
      (init Sim.server1_refusing) = Some s1 /\
    st_main s1 = MCount /\
    exists s2 : @state Sim.server2,
      exec (W := V2.WriterV2) Sim.small1
        (Sim.start 2 ++ Sim.runs (TWorker 0) 8 ++ Sim.runs (TWorker 1) 8 ++ [TMain])
        (init Sim.server2_up) = Some s2 /\
      control s1 = control s2.
Proof.
  eexists. split; [vm_compute; reflexivity|]. split; [reflexivity|].
  apply (load_independent_of_backend (W1 := V1.WriterV1) (W2 := V2.WriterV2) Sim.small1
           Sim.server1_refusing Sim.server2_up).
  - vm_compute; reflexivity.
  - intros e He. simpl in He.
    repeat (destruct He as [<-|He]; [reflexivity|]). destruct He.
  - intros e He. simpl in He.
    repeat (destruct He as [<-|He]; [reflexivity|]). destruct He.
Defined.

(** ** The counter of the wait group wraps around *)

(** [X16].  When the number of workers asked for is a positive multiple of
    [2 ^ 32] the counter of the wait group is zero after [wg.Add]: there is
    a run in which [main] is past [wg.Wait()] (line 101) while all the
    workers have been started and none of them has taken a step; the
    counter is still zero there, so that [wg.Done()] panics, and the process
    panics with the first worker that returns. *)
Theorem barrier_open_when_counter_wraps {B} {W : Writer B} (cfg : Config) (b : B) :
  0 < threadsCount cfg -> threadsCount cfg < GoInt.max_int ->
  int32 (threadsCount cfg) = 0 ->
  exists s : state,
    reachable cfg b s /\ st_status s = Running /\ (5 <= phase (st_main s))%nat /\
    Z.of_nat (length (st_workers s)) = threadsCount cfg /\
    (forall g w, st_workers s !! g = Some w -> g_pc w = AtBatch 1) /\
    wg s = 0 /\ wg_Done (wg s) = None /\
    (forall g s' w', step cfg (TWorker g) s = Some s' ->
       st_workers s' !! g = Some w' -> g_pc w' = Returned ->
       st_status s' = Panicked negative_counter).
Proof.
  intros Hpos HT Hz.
  destruct (spawn_run cfg b HT) as (s0 & He & H1 & H2 & H3 & H4 & H5 & H6 & H7); [lia|].
  assert (Hs : step cfg TMain s0
               = Some (goto (if skipCount cfg then MClose else MCount) s0)).
  { unfold step, main. rewrite H1, H2. unfold wg_Wait. rewrite H5, Hz. reflexivity. }
  exists (goto (if skipCount cfg then MClose else MCount) s0).
  assert (Hdone : wg_Done 0 = None) by reflexivity.
  split; [|split; [|split; [|split; [|split; [|split; [|split]]]]]]; simpl.
  - eapply reach_step; [|exact Hs]. eapply run_reachable; eauto.
  - exact H1.
  - destruct (skipCount cfg); simpl; lia.
  - lia.
  - intros g w Hg. destruct (H4 g w Hg) as [-> _]. reflexivity.
  - congruence.
  - rewrite H5, Hz. exact Hdone.
  - intros g s' w' Hs' Hw' Hret.
    unfold step, worker in Hs'. simpl in Hs'. rewrite H1 in Hs'.
    destruct (st_workers s0 !! g) as [w|] eqn:Hg; [|discriminate].
    assert (Hlt : (g < length (st_workers s0))%nat) by (eapply lookup_lt_Some; eauto).
    destruct (H4 g w Hg) as [-> _]. simpl in Hs'. rewrite H5, Hz, Hdone in Hs'.
    destruct (1 <=? secondsCount cfg); [destruct (ready (stopExecution s0))|].
    all: inversion Hs'; subst; clear Hs'; simpl in *; try reflexivity.
    rewrite list_lookup_insert_eq in Hw' by assumption.
    inversion Hw'; subst. discriminate.
Qed.

Lemma barrier_open_when_counter_wraps_witness :
  exists s : @state unit,
    reachable (W := Sim.null) (Sim.config "CLIENT_GO_V2" 4294967296 1 1 false) tt s /\
    st_status s = Running /\ (5 <= phase (st_main s))%nat /\
    Z.of_nat (length (st_workers s))
      = threadsCount (Sim.config "CLIENT_GO_V2" 4294967296 1 1 false) /\
    (forall g w, st_workers s !! g = Some w -> g_pc w = AtBatch 1) /\
    wg s = 0 /\ wg_Done (wg s) = None /\
    (forall g s' w',
       step (W := Sim.null) (Sim.config "CLIENT_GO_V2" 4294967296 1 1 false) (TWorker g) s
         = Some s' ->
       st_workers s' !! g = Some w' -> g_pc w' = Returned ->
       st_status s' = Panicked negative_counter).
Proof.
  apply (barrier_open_when_counter_wraps (W := Sim.null)
           (Sim.config "CLIENT_GO_V2" 4294967296 1 1 false) tt).
  - simpl. lia.
  - unfold GoInt.max_int. simpl. lia.
  - reflexivity.
Defined.
